(** * Smart-HomeChef: the ingredient matcher and the pantry / grocery tables

    A shallow embedding of [homechef/db.py]: the string normalisation
    [_normalize_ingredient], the missing-ingredient computation
    [compute_missing_ingredients], and the pantry and grocery operations
    that feed it.

    Python strings are modelled as lists of code points of a part of
    Unicode: the Latin-1 range (the code points below 256, Rocq's
    [ascii]) and U+03D2, an upper-case letter that [str.lower] leaves as
    it is.  The [str] methods the source calls are modelled on these
    code points as CPython defines them.  The SQLite tables are modelled
    as lists of rows in insertion order together with their
    AUTOINCREMENT counters. *)

From Stdlib Require Import Ascii String NArith ZArith.
From stdpp Require Import gmap strings list sorting.

#[local] Set Warnings "-clear-no-such-hyp".

(** A code point: one of the Latin-1 range, or U+03D2 (GREEK UPSILON
    WITH HOOK SYMBOL). *)
Inductive code_point :=
  | Latin1 (a : ascii)
  | U03D2.

Coercion Latin1 : ascii >-> code_point.

#[global] Instance code_point_eq_dec : EqDecision code_point.
Proof. solve_decision. Defined.

#[global] Instance code_point_countable : Countable code_point :=
  inj_countable'
    (λ c, match c with Latin1 a => Some a | U03D2 => None end)
    (λ o, match o with Some a => Latin1 a | None => U03D2 end)
    (λ c, match c with Latin1 _ => eq_refl | U03D2 => eq_refl end).

Abbreviation str := (list code_point).

(** A Python string literal. *)
Definition py (s : string) : str := Latin1 <$> list_ascii_of_string s.
Arguments py s%_string.

(** ** Character classes of [str] *)

Module Char.

Definition ord (c : code_point) : N :=
  match c with
  | Latin1 a => N_of_ascii a
  | U03D2 => 978
  end.

(** [c.isspace()]: TAB..CR, FS..US, SPACE, NEL and NBSP. *)
Definition isspace (c : code_point) : bool :=
  let n := ord c in
  ((9 <=? n) && (n <=? 13) || (28 <=? n) && (n <=? 32)
   || (n =? 133) || (n =? 160))%N.

(** [c.isdigit()]: the decimal digits and the superscripts two, three
    and one. *)
Definition isdigit (c : code_point) : bool :=
  let n := ord c in
  ((48 <=? n) && (n <=? 57) || (n =? 178) || (n =? 179) || (n =? 185))%N.

(** [c.isupper()]: A..Z, the capital letters of Latin-1 (the
    multiplication sign at 215 is not a letter) and U+03D2. *)
Definition isupper (c : code_point) : bool :=
  let n := ord c in
  ((65 <=? n) && (n <=? 90) || (192 <=? n) && (n <=? 214)
   || (216 <=? n) && (n <=? 222) || (n =? 978))%N.

(** [c.lower()]: every capital letter of the Latin-1 range has its small
    letter 32 code points further; U+03D2 has no small letter and stays
    as it is. *)
Definition lower (c : code_point) : code_point :=
  match c with
  | Latin1 a => if isupper c then Latin1 (ascii_of_N (ord c + 32)) else c
  | U03D2 => c
  end.

(** A line boundary of [str.splitlines]. *)
Definition islinebreak (c : code_point) : bool :=
  let n := ord c in
  ((10 <=? n) && (n <=? 13) || (28 <=? n) && (n <=? 30) || (n =? 133))%N.

End Char.

(** ** The [str] methods used by the source *)

(** [s.lstrip()], [s.rstrip()] and [s.strip()] without argument. *)
Fixpoint str_lstrip (s : str) : str :=
  match s with
  | c :: s' => if Char.isspace c then str_lstrip s' else s
  | [] => []
  end.

Definition str_rstrip (s : str) : str := reverse (str_lstrip (reverse s)).

Definition str_strip (s : str) : str := str_rstrip (str_lstrip s).

(** [s.lower()]. *)
Definition str_lower (s : str) : str := Char.lower <$> s.

(** [s.replace(old, new)] for one-character [old] and [new], the only
    form in which the source calls it. *)
Definition str_replace (old new : code_point) (s : str) : str :=
  (λ c, if decide (c = old) then new else c) <$> s.

(** The word under construction, closed when a separator or the end of
    the string is met; an empty one yields no word. *)
Definition flush (cur : str) : list str :=
  match cur with
  | [] => []
  | _ => [cur]
  end.

(** [s.split()] without argument: the maximal runs of non-whitespace. *)
Fixpoint split_go (cur : str) (s : str) : list str :=
  match s with
  | [] => flush cur
  | c :: s' =>
      if Char.isspace c then flush cur ++ split_go [] s'
      else split_go (cur ++ [c]) s'
  end.

Definition str_split (s : str) : list str := split_go [] s.

(** [sep.join(l)]. *)
Fixpoint str_join (sep : str) (l : list str) : str :=
  match l with
  | [] => []
  | x :: rest =>
      match rest with
      | [] => x
      | _ :: _ => x ++ sep ++ str_join sep rest
      end
  end.

(** [tok.isdigit()]: at least one character, and all of them digits. *)
Definition str_isdigit (tok : str) : bool :=
  match tok with
  | [] => false
  | _ => forallb Char.isdigit tok
  end.

(** [s.splitlines()]: a carriage return followed by a line feed is one
    boundary, and a trailing boundary opens no further line. *)
Fixpoint splitlines_go (cur : str) (s : str) : list str :=
  match s with
  | [] => flush cur
  | c :: s' =>
      if Char.islinebreak c then
        if decide (c = Latin1 "013") then
          match s' with
          | c' :: s'' =>
              if decide (c' = Latin1 "010") then cur :: splitlines_go [] s''
              else cur :: splitlines_go [] s'
          | [] => cur :: splitlines_go [] s'
          end
        else cur :: splitlines_go [] s'
      else splitlines_go (cur ++ [c]) s'
  end.

Definition str_splitlines (s : str) : list str := splitlines_go [] s.

(** ** The normaliser *)

Definition punctuation : list code_point :=
  [Latin1 ","; Latin1 "."; Latin1 ";"; Latin1 ":"; Latin1 "("; Latin1 ")"].

Definition _normalize_ingredient (line : str) : str :=
  let s := str_lower (str_strip line) in
  let s := foldl (λ s ch, str_replace ch (Latin1 " ") s) s punctuation in
  str_join (py " ")
    (filter (λ tok, str_isdigit tok = false) (str_split s)).

(** ** The matcher *)

(** [l[-1]]: indexing the last element raises IndexError on an empty
    list, modelled as [None]. *)
Definition index_last {A} (l : list A) : option A := last l.

(** [item.split()[-1] if item.split() else item]. *)
Definition key_of_item (item : str) : option str :=
  if bool_decide (str_split item ≠ []) then index_last (str_split item)
  else Some item.

(** The first loop of [compute_missing_ingredients]; [missing] is the
    list built so far. *)
Fixpoint collect_missing (pantry : gset str) (lines : list str)
    (missing : list str) : option (list str) :=
  match lines with
  | [] => Some missing
  | line :: rest =>
      let item := _normalize_ingredient line in
      key ← key_of_item item;
      if bool_decide (key ≠ []) && bool_decide (key ∉ pantry)
      then collect_missing pantry rest (missing ++ [key])
      else collect_missing pantry rest missing
  end.

(** The second loop: unique, preserving order. *)
Fixpoint unique_preserve_order (missing : list str) (seen : gset str)
    (uniq : list str) : list str :=
  match missing with
  | [] => uniq
  | m :: rest =>
      if bool_decide (m ∉ seen)
      then unique_preserve_order rest ({[m]} ∪ seen) (uniq ++ [m])
      else unique_preserve_order rest seen uniq
  end.

(** The body of [compute_missing_ingredients] once the recipe's lines and
    the pantry set have been read. *)
Definition missing_ingredients (raw_lines : list str) (pantry : gset str)
    : option (list str) :=
  let ingredients_lines := filter (λ l, str_strip l ≠ []) raw_lines in
  missing ← collect_missing pantry ingredients_lines [];
  Some (unique_preserve_order missing ∅ []).

(** ** The tables *)

(** A row of [recipes]; the columns no modelled function reads
    ([steps_text], [cook_time], [difficulty], [image_path],
    [is_favorite]) are left out. *)
Record recipe := Recipe {
  recipe_id : Z;
  title : str;
  ingredients_text : str
}.

Record pantry_item := PantryItem {
  pantry_id : Z;
  pantry_name : str
}.

Record grocery_item := GroceryItem {
  grocery_id : Z;
  grocery_name : str;
  is_checked : Z
}.

(** The tables hold their rows in insertion order; [pantry_seq] and
    [grocery_seq] are the AUTOINCREMENT counters, which a DELETE does not
    reset. *)
Record database := Database {
  recipes : list recipe;
  pantry_items : list pantry_item;
  pantry_seq : Z;
  grocery_items : list grocery_item;
  grocery_seq : Z
}.

Definition LF : str := [Latin1 "010"].

Definition sample_recipes : list recipe :=
  [ Recipe 1 (py "Simple Crepes")
      (str_join LF [py "1 cup flour"; py "2 eggs"; py "1/2 cup milk";
                    py "1/2 cup water"; py "Pinch of salt"; py "1 tbsp butter"]);
    Recipe 2 (py "Pasta Aglio e Olio")
      (str_join LF [py "200g spaghetti"; py "3 cloves garlic";
                    py "4 tbsp olive oil"; py "Red pepper flakes"; py "Salt";
                    py "Parsley"]);
    Recipe 3 (py "Veggie Omelette")
      (str_join LF [py "3 eggs"; py "1/4 cup milk"; py "1/4 cup diced bell pepper";
                    py "1/4 cup diced onion"; py "Salt"; py "Pepper";
                    py "Olive oil"]) ].

(** A data base file just created, holding the recipes [rs]. *)
Definition fresh (rs : list recipe) : database := Database rs [] 0 [] 0.

(** [init_db] on a new file: the four empty tables, then the samples. *)
Definition init_db : database := fresh sample_recipes.

(** An integer that [sqlite3] can bind as a parameter: a signed 64-bit
    one.  Any other raises OverflowError. *)
Definition sqlite_integer (i : Z) : bool :=
  ((- 2 ^ 63 <=? i) && (i <? 2 ^ 63))%Z.

(** [SELECT * FROM recipes WHERE id = ?], first row or [None], for an
    id that can be bound; the OverflowError of any other id is raised in
    [compute_missing_ingredients], the caller. *)
Definition get_recipe (db : database) (rid : Z) : option recipe :=
  snd <$> list_find (λ r, recipe_id r = rid) (recipes db).

(** The BINARY collation of a TEXT column: code point by code point. *)
Fixpoint str_leb (a b : str) : bool :=
  match a, b with
  | [], _ => true
  | _ :: _, [] => false
  | x :: a', y :: b' =>
      if decide (x = y) then str_leb a' b'
      else (Char.ord x <? Char.ord y)%N
  end.

(** [SELECT name FROM pantry_items ORDER BY name ASC]. *)
Definition list_pantry (db : database) : list str :=
  merge_sort (λ a b, str_leb a b) (pantry_name <$> pantry_items db).

(** [INSERT OR IGNORE]: the UNIQUE constraint on [name] makes the insert
    of a name that is already there add no row; the id taken for the row
    is lost all the same, the AUTOINCREMENT counter moves on. *)
Definition add_pantry_item (name : str) (db : database) : database :=
  if bool_decide (name = []) then db
  else
    let n := str_lower (str_strip name) in
    if bool_decide (n ∈ pantry_name <$> pantry_items db) then
      {| recipes := recipes db;
         pantry_items := pantry_items db;
         pantry_seq := pantry_seq db + 1;
         grocery_items := grocery_items db;
         grocery_seq := grocery_seq db |}
    else
      {| recipes := recipes db;
         pantry_items :=
           pantry_items db ++ [PantryItem (pantry_seq db + 1) n];
         pantry_seq := pantry_seq db + 1;
         grocery_items := grocery_items db;
         grocery_seq := grocery_seq db |}.

Definition remove_pantry_item (name : str) (db : database) : database :=
  {| recipes := recipes db;
     pantry_items :=
       filter (λ p, pantry_name p ≠ str_lower (str_strip name))
         (pantry_items db);
     pantry_seq := pantry_seq db;
     grocery_items := grocery_items db;
     grocery_seq := grocery_seq db |}.

Definition with_grocery (db : database) (items : list grocery_item)
    (seq : Z) : database :=
  {| recipes := recipes db;
     pantry_items := pantry_items db;
     pantry_seq := pantry_seq db;
     grocery_items := items;
     grocery_seq := seq |}.

Definition add_grocery_item (name : str) (db : database) : database :=
  if bool_decide (name = []) then db
  else
    with_grocery db
      (grocery_items db
         ++ [GroceryItem (grocery_seq db + 1) (str_lower (str_strip name)) 0])
      (grocery_seq db + 1).

Definition remove_grocery_item (item_id : Z) (db : database) : database :=
  with_grocery db
    (filter (λ g, grocery_id g ≠ item_id) (grocery_items db))
    (grocery_seq db).

Definition clear_grocery (db : database) : database :=
  with_grocery db [] (grocery_seq db).

Definition set_grocery_checked (item_id : Z) (checked : bool)
    (db : database) : database :=
  with_grocery db
    ((λ g, if decide (grocery_id g = item_id)
           then GroceryItem (grocery_id g) (grocery_name g)
                  (if checked then 1 else 0)
           else g) <$> grocery_items db)
    (grocery_seq db).

(** ** The matcher on the tables *)

(** [None] when the call raises: [get_recipe] binds [rid] as the
    parameter of its SELECT, which raises OverflowError when [rid] is no
    signed 64-bit integer.  The rows of a table hold only such ids, so
    the error shows exactly where no row is found. *)
Definition compute_missing_ingredients (db : database) (rid : Z)
    : option (list str) :=
  match get_recipe db rid with
  | None => if sqlite_integer rid then Some [] else None
  | Some recipe =>
      let pantry : gset str := list_to_set (list_pantry db) in
      missing_ingredients (str_splitlines (ingredients_text recipe)) pantry
  end.

Definition add_missing_to_grocery (rid : Z) (db : database)
    : option (list str * database) :=
  missing ← compute_missing_ingredients db rid;
  Some (missing, foldl (λ d m, add_grocery_item m d) db missing).

(** ** Sequences of operations *)

Inductive op :=
  | AddPantryItem (name : str)
  | RemovePantryItem (name : str)
  | AddGroceryItem (name : str)
  | RemoveGroceryItem (item_id : Z)
  | ClearGrocery
  | SetGroceryChecked (item_id : Z) (checked : bool)
  | AddMissingToGrocery (rid : Z).

(** The tables after one call; a call that raises leaves them as they
    were. *)
Definition step (o : op) (db : database) : option database :=
  match o with
  | AddPantryItem name => Some (add_pantry_item name db)
  | RemovePantryItem name => Some (remove_pantry_item name db)
  | AddGroceryItem name => Some (add_grocery_item name db)
  | RemoveGroceryItem item_id => Some (remove_grocery_item item_id db)
  | ClearGrocery => Some (clear_grocery db)
  | SetGroceryChecked item_id checked =>
      Some (set_grocery_checked item_id checked db)
  | AddMissingToGrocery rid =>
      match add_missing_to_grocery rid db with
      | Some (_, db') => Some db'
      | None => Some db
      end
  end.

Fixpoint run (ops : list op) (db : database) : option database :=
  match ops with
  | [] => Some db
  | o :: rest => db' ← step o db; run rest db'
  end.

(** ** Reference definitions, in the words of the specification *)

(** A token is purely numeric when it is made of digits only. *)
Definition purely_numeric (tok : str) : bool :=
  bool_decide (tok ≠ []) && bool_decide (Forall (λ c, Char.isdigit c) tok).

(** The normaliser as the specification words it: lower-case, turn the
    six punctuation characters into spaces, split on whitespace, drop
    the purely numeric tokens, join with single spaces. *)
Definition normalize_reference (line : str) : str :=
  let lowered := Char.lower <$> line in
  let spaced :=
    (λ c, if bool_decide (c ∈ punctuation) then Latin1 " " else c) <$> lowered in
  let tokens := str_split spaced in
  str_join (py " ") (filter (λ tok, purely_numeric tok = false) tokens).

(** The comparison key of a line: the last whitespace-separated token of
    its normalised form, empty when there is none. *)
Definition comparison_key (line : str) : str :=
  default [] (last (str_split (_normalize_ingredient line))).

(** A line is blank when stripping it leaves nothing. *)
Definition nonblank (line : str) : Prop := str_strip line ≠ [].

(** A key counts as missing when it is non-empty and not in the pantry. *)
Definition is_missing (pantry : gset str) (key : str) : Prop :=
  key ≠ [] ∧ key ∉ pantry.

(** Keep the first occurrence of every element. *)
Fixpoint first_occurrences (l : list str) : list str :=
  match l with
  | [] => []
  | x :: rest => x :: filter (λ y, y ≠ x) (first_occurrences rest)
  end.

(** The position of the first line whose comparison key is [key]. *)
Definition first_line_producing (key : str) (lines : list str) : option nat :=
  fst <$> list_find (λ l, comparison_key l = key) lines.

(** Case-insensitive, whitespace-trimmed form of a name. *)
Definition trimmed_lower (name : str) : str := str_lower (str_strip name).

(** ** Predicates used in the proofs *)

Definition blank (c : code_point) : Prop := Char.isspace c = true.

Definition solid (c : code_point) : Prop := Char.isspace c = false.

(** A word: what [split] can return, with all its characters in [P]. *)
Definition word (P : code_point → Prop) (t : str) : Prop := t ≠ [] ∧ Forall P t.

(** What the normaliser does to one character before splitting. *)
Definition clean_char (c : code_point) : code_point :=
  if bool_decide (Char.lower c ∈ punctuation) then Latin1 " " else Char.lower c.

(** A character that survives in a token of a normalised string. *)
Definition tidy (c : code_point) : Prop := solid c ∧ clean_char c = c.

Arguments _normalize_ingredient : simpl never.
Arguments key_of_item : simpl never.
Arguments comparison_key : simpl never.
Arguments str_strip : simpl never.

#[global] Instance is_missing_dec pantry key : Decision (is_missing pantry key).
Proof. unfold is_missing. apply _. Defined.

#[global] Instance nonblank_dec line : Decision (nonblank line).
Proof. unfold nonblank. apply _. Defined.

(** [a] is first produced by an earlier line than [b]. *)
Definition produced_before (lines : list str) (a b : str) : Prop :=
  ∃ p q,
    first_line_producing a lines = Some p
    ∧ first_line_producing b lines = Some q ∧ p < q.

(** Names are pairwise different and each is its own trimmed,
    lower-cased form. *)
Definition pantry_ok (db : database) : Prop :=
  NoDup (pantry_name <$> pantry_items db)
  ∧ Forall (λ p, trimmed_lower (pantry_name p) = pantry_name p)
      (pantry_items db).

(** Every grocery name is its own trimmed, lower-cased form. *)
Definition grocery_ok (db : database) : Prop :=
  Forall (λ g, trimmed_lower (grocery_name g) = grocery_name g)
    (grocery_items db).

Ltac by_cases_on_char c :=
  destruct c as [[[] [] [] [] [] [] [] []]|]; vm_compute; try reflexivity;
  try congruence.

(** ** Further functions of [db.py] and their callers in [ui.py] *)





(** [l[i]]: a negative index counts from the end, and an index out of
    range raises IndexError, modelled as [None]. *)
Definition py_getitem {A} (l : list A) (i : Z) : option A :=
  let n := Z.of_nat (length l) in
  if bool_decide (0 ≤ i < n)%Z then l !! Z.to_nat i
  else if bool_decide (- n ≤ i < 0)%Z then l !! Z.to_nat (n + i)
  else None.

(** The cooking mode of [HomeChefWidget]: the two attributes, and what
    the handlers last wrote to the progress bar and to the label. *)
Record cooking := Cooking {
  cook_steps : list str;
  cook_index : Z;
  progress_range : Z * Z;
  progress_value : Z;
  step_label : str
}.

(** [_update_cooking_view]. *)
Definition update_cooking_view (st : cooking) : option cooking :=
  let total := Z.max 1 (Z.of_nat (length (cook_steps st))) in
  let value := Z.min (cook_index st + 1)%Z total in
  if bool_decide (cook_steps st ≠ []) then
    step_txt ← py_getitem (cook_steps st) (cook_index st);
    Some (Cooking (cook_steps st) (cook_index st) (0%Z, total) value step_txt)
  else
    Some (Cooking (cook_steps st) (cook_index st) (0%Z, total) value
            (py "No steps.")).

(** [_enter_cooking_mode]: [recipe] is [None] for no recipe, and
    otherwise holds the recipe's [steps_text], if it has one. *)
Definition enter_cooking_mode (recipe : option (option str)) (st : cooking)
    : option cooking :=
  match recipe with
  | None =>
      Some (Cooking [] 0%Z (0%Z, 1%Z) 0%Z
              (py "Select a recipe to start cooking mode."))
  | Some steps_text =>
      let steps_raw := default [] steps_text in
      let steps :=
        str_strip <$> filter (λ s, str_strip s ≠ []) (str_splitlines steps_raw) in
      update_cooking_view
        (Cooking steps 0%Z (progress_range st) (progress_value st)
           (step_label st))
  end.

Definition set_cook_index (i : Z) (st : cooking) : cooking :=
  Cooking (cook_steps st) i (progress_range st) (progress_value st)
    (step_label st).

(** [_prev_step] and [_next_step]. *)
Definition prev_step (st : cooking) : option cooking :=
  if bool_decide (cook_steps st = []) then Some st
  else
    update_cooking_view (set_cook_index (Z.max 0 (cook_index st - 1))%Z st).

Definition next_step (st : cooking) : option cooking :=
  if bool_decide (cook_steps st = []) then Some st
  else
    update_cooking_view
      (set_cook_index
         (Z.min (Z.of_nat (length (cook_steps st)) - 1) (cook_index st + 1))%Z
         st).

Inductive cook_button := Prev | Next.

Definition press (b : cook_button) (st : cooking) : option cooking :=
  match b with
  | Prev => prev_step st
  | Next => next_step st
  end.

Fixpoint press_all (bs : list cook_button) (st : cooking) : option cooking :=
  match bs with
  | [] => Some st
  | b :: rest => st' ← press b st; press_all rest st'
  end.

(** The order of [list_pantry]. *)
Definition str_le (a b : str) : Prop := str_leb a b = true.

(** Ids of the grocery rows grow along the table and stay within the
    counter; the flags are 0 or 1. *)
Definition grocery_rows_ok (db : database) : Prop :=
  (0 ≤ grocery_seq db)%Z
  ∧ StronglySorted Z.lt (grocery_id <$> grocery_items db)
  ∧ Forall (λ g, (0 < grocery_id g ≤ grocery_seq db)%Z
                 ∧ (is_checked g = 0%Z ∨ is_checked g = 1%Z))
      (grocery_items db).

(** The cooking view shows the step the index points at. *)
Definition shown (st : cooking) : Prop :=
  cook_steps st ≠ []
  ∧ (0 ≤ cook_index st < Z.of_nat (length (cook_steps st)))%Z
  ∧ cook_steps st !! Z.to_nat (cook_index st) = Some (step_label st)
  ∧ progress_range st = (0%Z, Z.of_nat (length (cook_steps st)))
  ∧ progress_value st = (cook_index st + 1)%Z.

(** * Properties *)

(** ** Characters *)

Lemma lower_isspace c : Char.isspace (Char.lower c) = Char.isspace c.
Proof. by_cases_on_char c. Qed.

Lemma lower_idem c : Char.lower (Char.lower c) = Char.lower c.
Proof. by_cases_on_char c. Qed.

Lemma replace_chain c :
  foldl (λ d ch, if decide (d = ch) then Latin1 " " else d) c punctuation
  = if bool_decide (c ∈ punctuation) then Latin1 " " else c.
Proof. by_cases_on_char c. Qed.

(** ** Splitting, stripping and joining *)

Lemma flush_word (t : str) : t ≠ [] → flush t = [t].
Proof. by destruct t. Qed.

Lemma split_go_solid cur w s :
  Forall solid w → split_go cur (w ++ s) = split_go (cur ++ w) s.
Proof.
  intros Hw. revert cur.
  induction Hw as [|c w Hc _ IH]; intros cur; simpl.
  - by rewrite app_nil_r.
  - rewrite Hc, IH. by rewrite <- app_assoc.
Qed.

Lemma split_go_blank_l w s :
  Forall blank w → split_go [] (w ++ s) = split_go [] s.
Proof.
  induction 1 as [|c w Hc _ IH]; simpl; [done|]. by rewrite Hc.
Qed.

Lemma split_go_blank_r cur s w :
  Forall blank w → split_go cur (s ++ w) = split_go cur s.
Proof.
  intros Hw. revert cur. induction s as [|c s IH]; intros cur; simpl.
  - destruct Hw as [|c w Hc Hw]; simpl; [done|].
    rewrite Hc. rewrite <- (app_nil_r w), (split_go_blank_l w []) by done.
    simpl. by rewrite app_nil_r.
  - destruct (Char.isspace c); by rewrite IH.
Qed.

Lemma split_go_words (P : code_point → Prop) cur s :
  Forall P cur → Forall (λ c, solid c → P c) s →
  Forall (word P) (split_go cur s).
Proof.
  intros Hcur Hs. revert cur Hcur.
  induction Hs as [|c s Hc _ IH]; intros cur Hcur; simpl.
  - destruct cur; simpl; [constructor|].
    constructor; [by split|constructor].
  - destruct (Char.isspace c) eqn:E.
    + apply Forall_app. split; [|by apply IH].
      destruct cur; simpl; [constructor|].
      constructor; [by split|constructor].
    + apply IH. apply Forall_app. split; [done|].
      constructor; [by apply Hc|constructor].
Qed.

Lemma split_go_one cur w :
  Forall solid w → split_go cur w = flush (cur ++ w).
Proof.
  intros Hw. by rewrite <- (app_nil_r w) at 1; rewrite split_go_solid.
Qed.

Lemma split_join (toks : list str) :
  Forall (word solid) toks → str_split (str_join (py " ") toks) = toks.
Proof.
  unfold str_split.
  induction 1 as [|t rest [Ht Hs] Hrest IH]; [done|].
  destruct rest as [|t' rest]; simpl.
  - rewrite split_go_one by done. simpl. by rewrite flush_word.
  - rewrite split_go_solid by done. simpl.
    rewrite flush_word by done. simpl. f_equal. apply IH.
Qed.

Lemma lstrip_decompose s :
  ∃ pre, s = pre ++ str_lstrip s ∧ Forall blank pre.
Proof.
  induction s as [|c s (pre & Hs & Hpre)]; simpl.
  - by exists [].
  - destruct (Char.isspace c) eqn:E.
    + exists (c :: pre). split; [simpl; congruence|by constructor].
    + by exists [].
Qed.

Lemma rstrip_decompose s :
  ∃ post, s = str_rstrip s ++ post ∧ Forall blank post.
Proof.
  destruct (lstrip_decompose (reverse s)) as (pre & Hs & Hpre).
  exists (reverse pre). split; [|by apply Forall_reverse].
  unfold str_rstrip. rewrite <- reverse_app, <- Hs.
  by rewrite reverse_involutive.
Qed.

Lemma strip_decompose s :
  ∃ pre post,
    s = pre ++ str_strip s ++ post ∧ Forall blank pre ∧ Forall blank post.
Proof.
  destruct (lstrip_decompose s) as (pre & Hs & Hpre).
  destruct (rstrip_decompose (str_lstrip s)) as (post & Hs' & Hpost).
  exists pre, post. unfold str_strip. by rewrite <- Hs', <- Hs.
Qed.

(** Stripping first changes nothing for [split], under any character
    map that keeps whitespace whitespace. *)
Lemma split_fmap_strip (g : code_point → code_point) s :
  (∀ c, blank c → blank (g c)) →
  str_split (g <$> str_strip s) = str_split (g <$> s).
Proof.
  intros Hg.
  destruct (strip_decompose s) as (pre & post & Hs & Hpre & Hpost).
  rewrite Hs at 2. rewrite !fmap_app. unfold str_split.
  rewrite split_go_blank_l, split_go_blank_r; [done| |].
  - apply Forall_fmap. eapply Forall_impl; [exact Hpost|]. apply Hg.
  - apply Forall_fmap. eapply Forall_impl; [exact Hpre|]. apply Hg.
Qed.

(** ** The normaliser *)

Lemma clean_char_blank c : blank c → blank (clean_char c).
Proof. unfold blank, clean_char. by_cases_on_char c. Qed.

Lemma clean_char_solid c : solid (clean_char c) → tidy (clean_char c).
Proof.
  unfold tidy, solid, clean_char.
  destruct c as [[[] [] [] [] [] [] [] []]|]; vm_compute; auto.
Qed.

Lemma normalize_unfold line :
  _normalize_ingredient line
  = str_join (py " ")
      (filter (λ tok, str_isdigit tok = false)
         (str_split (clean_char <$> str_strip line))).
Proof.
  unfold _normalize_ingredient. do 3 f_equal.
  unfold punctuation, str_replace, str_lower. simpl.
  rewrite <- !list_fmap_compose. apply list_fmap_ext.
  intros _ c _. unfold clean_char. rewrite <- replace_chain. reflexivity.
Qed.

Lemma str_isdigit_purely_numeric tok : str_isdigit tok = purely_numeric tok.
Proof.
  unfold purely_numeric, str_isdigit.
  assert (∀ l : str,
    forallb Char.isdigit l = bool_decide (Forall (λ c, Char.isdigit c) l))
    as Hall.
  { induction l as [|c l IH]; simpl; [done|].
    rewrite IH. destruct (Char.isdigit c) eqn:E; simpl.
    - apply bool_decide_ext. rewrite Forall_cons, E.
      split; [intros ?; split; [exact I|done]|by intros [_ ?]].
    - symmetry. apply bool_decide_eq_false. rewrite Forall_cons, E.
      by intros [[] _]. }
  destruct tok as [|c tok]; [done|].
  rewrite Hall. by rewrite (bool_decide_eq_true_2 (c :: tok ≠ [])).
Qed.

Lemma join_Forall (P : code_point → Prop) sep (toks : list str) :
  Forall P sep → Forall (Forall P) toks → Forall P (str_join sep toks).
Proof.
  intros Hsep. induction 1 as [|t rest Ht Hrest IH]; simpl; [constructor|].
  destruct rest; [done|]. rewrite !Forall_app. auto.
Qed.

Lemma fmap_fixed (g : code_point → code_point) (s : str) :
  Forall (λ c, g c = c) s → g <$> s = s.
Proof. induction 1; [done|]. rewrite fmap_cons. congruence. Qed.

Lemma filter_all {A} (P : A → Prop) `{∀ x, Decision (P x)} (l : list A) :
  Forall P l → filter P l = l.
Proof.
  induction 1 as [|x l Hx _ IH]; [done|].
  rewrite filter_cons_True by done. by rewrite IH.
Qed.

(** The normalised form is a list of tidy, non-numeric words joined by
    single spaces. *)
Lemma normalize_tokens line :
  ∃ toks,
    _normalize_ingredient line = str_join (py " ") toks
    ∧ Forall (word tidy) toks
    ∧ Forall (λ t, str_isdigit t = false) toks.
Proof.
  eexists. split; [apply normalize_unfold|]. split.
  - apply Forall_forall. intros t Ht.
    apply list_elem_of_filter in Ht as [_ Ht]. revert t Ht.
    apply Forall_forall, (split_go_words tidy); [constructor|].
    apply Forall_fmap, Forall_forall. intros c _.
    exact (clean_char_solid c).
  - apply Forall_forall. intros t Ht.
    by apply list_elem_of_filter in Ht as [Ht _].
Qed.

Lemma word_tidy_solid t : word tidy t → word solid t.
Proof.
  intros [Hne Ht]. split; [done|].
  eapply Forall_impl; [exact Ht|]. by intros c [Hc _].
Qed.

Lemma split_normalized toks :
  Forall (word tidy) toks → str_split (str_join (py " ") toks) = toks.
Proof.
  intros H. apply split_join.
  eapply Forall_impl; [exact H|]. apply word_tidy_solid.
Qed.

Lemma normalize_of_tokens toks :
  Forall (word tidy) toks → Forall (λ t, str_isdigit t = false) toks →
  _normalize_ingredient (str_join (py " ") toks) = str_join (py " ") toks.
Proof.
  intros Hw Hd. rewrite normalize_unfold.
  rewrite split_fmap_strip by apply clean_char_blank.
  rewrite fmap_fixed.
  - rewrite split_normalized by done. by rewrite filter_all.
  - apply join_Forall.
    + repeat constructor.
    + eapply Forall_impl; [exact Hw|]. intros t [_ Ht].
      eapply Forall_impl; [exact Ht|]. by intros c [_ Hc].
Qed.

(** ** The matcher *)

(** On a normalised line the guarded index never raises, and the key is
    the last token. *)
Lemma key_of_item_normalized line :
  key_of_item (_normalize_ingredient line) = Some (comparison_key line).
Proof.
  unfold key_of_item, comparison_key, index_last.
  destruct (normalize_tokens line) as (toks & -> & Hw & _).
  rewrite split_normalized by done.
  destruct toks as [|t toks]; [done|].
  rewrite bool_decide_eq_true_2 by done.
  destruct (last (t :: toks)) eqn:E; [done|].
  by apply last_None in E.
Qed.

Lemma blank_line_key line : ¬ nonblank line → comparison_key line = [].
Proof.
  unfold nonblank, comparison_key. intros H.
  apply dec_stable in H. rewrite normalize_unfold, H. reflexivity.
Qed.

Lemma collect_missing_cons pantry line rest acc :
  collect_missing pantry (line :: rest) acc
  = key ← key_of_item (_normalize_ingredient line);
    if bool_decide (key ≠ []) && bool_decide (key ∉ pantry)
    then collect_missing pantry rest (acc ++ [key])
    else collect_missing pantry rest acc.
Proof. reflexivity. Qed.

Lemma collect_missing_spec pantry lines acc :
  collect_missing pantry lines acc
  = Some (acc ++ filter (is_missing pantry) (comparison_key <$> lines)).
Proof.
  revert acc. induction lines as [|line rest IH]; intros acc.
  - cbn [collect_missing]. by rewrite app_nil_r.
  - rewrite collect_missing_cons, key_of_item_normalized.
    cbn [mbind option_bind]. rewrite fmap_cons, filter_cons.
    destruct (decide (is_missing pantry (comparison_key line)))
      as [[Hk Hp]|Hn].
    + rewrite !bool_decide_eq_true_2 by done. cbn [andb].
      rewrite IH. by rewrite <- app_assoc.
    + rewrite IH.
      destruct (bool_decide (comparison_key line ≠ [])) eqn:E1;
        destruct (bool_decide (comparison_key line ∉ pantry)) eqn:E2;
        simpl; try done.
      apply bool_decide_eq_true in E1, E2. by destruct Hn.
Qed.

Lemma first_occurrences_filter (P : str → Prop) `{!∀ x, Decision (P x)} l :
  first_occurrences (filter P l) = filter P (first_occurrences l).
Proof.
  induction l as [|x rest IH]; [done|]. simpl.
  destruct (decide (P x)) as [Hx|Hx].
  - rewrite !filter_cons_True by done. simpl. rewrite IH. f_equal.
    rewrite !list_filter_filter. apply list_filter_iff. naive_solver.
  - rewrite !filter_cons_False by done. rewrite IH.
    rewrite list_filter_filter. apply list_filter_iff.
    intros y. split; [|tauto]. intros Hy. split; [done|]. congruence.
Qed.

Lemma unique_preserve_order_spec missing seen uniq :
  unique_preserve_order missing seen uniq
  = uniq ++ first_occurrences (filter (λ m, m ∉ seen) missing).
Proof.
  revert seen uniq.
  induction missing as [|m rest IH]; intros seen uniq; simpl.
  - by rewrite app_nil_r.
  - destruct (decide (m ∉ seen)) as [Hm|Hm].
    + rewrite bool_decide_eq_true_2, filter_cons_True by done.
      rewrite IH, <- app_assoc. simpl. do 2 f_equal.
      rewrite <- first_occurrences_filter, list_filter_filter.
      f_equal. apply list_filter_iff. set_solver.
    + rewrite bool_decide_eq_false_2, filter_cons_False by done.
      apply IH.
Qed.

Lemma first_occurrences_elem_of x l : x ∈ first_occurrences l ↔ x ∈ l.
Proof.
  induction l as [|y rest IH]; [done|]. simpl.
  rewrite !elem_of_cons, list_elem_of_filter, IH.
  destruct (decide (x = y)); naive_solver.
Qed.

Lemma first_occurrences_NoDup l : NoDup (first_occurrences l).
Proof.
  induction l as [|y rest IH]; simpl; [constructor|].
  apply NoDup_cons. split.
  - rewrite list_elem_of_filter. naive_solver.
  - by apply NoDup_filter.
Qed.

(** The closed form of the matcher. *)
Lemma missing_ingredients_spec raw_lines pantry :
  missing_ingredients raw_lines pantry
  = Some (first_occurrences
            (filter (is_missing pantry)
               (comparison_key <$> filter nonblank raw_lines))).
Proof.
  unfold missing_ingredients. rewrite collect_missing_spec. simpl.
  rewrite unique_preserve_order_spec. simpl. do 2 f_equal.
  apply filter_all, Forall_forall. set_solver.
Qed.

(** Blank lines contribute nothing, filtered or not. *)
Lemma missing_keys_all_lines (raw_lines : list str) pantry :
  filter (is_missing pantry) (comparison_key <$> filter nonblank raw_lines)
  = filter (is_missing pantry) (comparison_key <$> raw_lines).
Proof.
  induction raw_lines as [|l rest IH]; [done|].
  destruct (decide (nonblank l)) as [Hl|Hl].
  - rewrite (filter_cons_True nonblank) by done. rewrite !fmap_cons.
    rewrite !filter_cons. by rewrite IH.
  - rewrite (filter_cons_False nonblank) by done. rewrite fmap_cons.
    rewrite filter_cons_False; [done|].
    rewrite blank_line_key by done. by intros [? _].
Qed.

(** ** Order of the reported keys *)

Lemma first_line_producing_cons key l lines :
  first_line_producing key (l :: lines)
  = if decide (comparison_key l = key) then Some 0
    else S <$> first_line_producing key lines.
Proof.
  unfold first_line_producing. cbn [list_find].
  case_decide; [done|]. by destruct (list_find _ lines) as [[]|].
Qed.

Lemma first_line_producing_elem key (lines : list str) :
  key ∈ comparison_key <$> lines → is_Some (first_line_producing key lines).
Proof.
  intros (l & -> & Hl)%list_elem_of_fmap.
  unfold first_line_producing. apply fmap_is_Some.
  by apply (list_find_elem_of _ _ l).
Qed.

Lemma StronglySorted_filter_impl {A} (R R' : relation A) (P : A → Prop)
    `{!∀ x, Decision (P x)} (l : list A) :
  (∀ a b, P a → P b → R a b → R' a b) →
  StronglySorted R l → StronglySorted R' (filter P l).
Proof.
  intros HR. induction 1 as [|x l _ IH Hx]; [constructor|].
  rewrite filter_cons. case_decide; [|done].
  constructor; [done|]. apply Forall_forall. intros y Hy.
  apply list_elem_of_filter in Hy as [Hy Hin].
  rewrite Forall_forall in Hx. auto.
Qed.

Lemma StronglySorted_lookup_lt {A} (R : relation A) (l : list A) i j a b :
  StronglySorted R l → l !! i = Some a → l !! j = Some b → i < j → R a b.
Proof.
  intros Hl. revert i j. induction Hl as [|x l _ IH Hx]; intros i j Hi Hj Hlt.
  - done.
  - destruct j as [|j]; [lia|]. destruct i as [|i]; simplify_eq/=.
    + rewrite Forall_forall in Hx. apply Hx. by eapply list_elem_of_lookup_2.
    + eapply IH; [done..|lia].
Qed.

Lemma first_occurrences_sorted (lines : list str) :
  StronglySorted (produced_before lines)
    (first_occurrences (comparison_key <$> lines)).
Proof.
  induction lines as [|l rest IH]; [constructor|].
  rewrite fmap_cons. cbn [first_occurrences]. constructor.
  - eapply StronglySorted_filter_impl; [|exact IH].
    intros a b Ha Hb (p & q & Hp & Hq & Hlt).
    exists (S p), (S q). rewrite !first_line_producing_cons.
    rewrite !decide_False by done. rewrite Hp, Hq. split_and!; [done..|lia].
  - apply Forall_forall. intros b [Hb Hin]%list_elem_of_filter.
    apply first_occurrences_elem_of, first_line_producing_elem in Hin
      as [q Hq].
    exists 0, (S q). rewrite !first_line_producing_cons.
    rewrite decide_True by done. rewrite decide_False by done.
    rewrite Hq. split_and!; [done..|lia].
Qed.

(** ** Stripping a stripped string *)

Lemma lstrip_idem s : str_lstrip (str_lstrip s) = str_lstrip s.
Proof.
  induction s as [|c s IH]; [done|]. simpl.
  destruct (Char.isspace c) eqn:E; [done|]. simpl. by rewrite E.
Qed.

Lemma lstrip_app a b :
  str_lstrip (a ++ b)
  = match str_lstrip a with [] => str_lstrip b | r => r ++ b end.
Proof.
  induction a as [|c a IH]; [done|]. simpl.
  by destruct (Char.isspace c).
Qed.

Lemma rstrip_cons c s :
  str_rstrip (c :: s)
  = match str_rstrip s with
    | [] => if Char.isspace c then [] else [c]
    | r => c :: r
    end.
Proof.
  unfold str_rstrip. rewrite reverse_cons, lstrip_app.
  destruct (str_lstrip (reverse s)) as [|d r] eqn:E.
  - simpl. by destruct (Char.isspace c).
  - rewrite reverse_app. simpl.
    destruct (reverse (d :: r)) eqn:E'; [|done].
    apply (f_equal reverse) in E'. by rewrite reverse_involutive in E'.
Qed.

Lemma rstrip_idem s : str_rstrip (str_rstrip s) = str_rstrip s.
Proof.
  unfold str_rstrip. by rewrite reverse_involutive, lstrip_idem.
Qed.

Lemma lstrip_rstrip s : str_lstrip (str_rstrip s) = str_rstrip (str_lstrip s).
Proof.
  induction s as [|c s IH]; [done|].
  rewrite rstrip_cons. cbn [str_lstrip].
  destruct (Char.isspace c) eqn:E.
  - rewrite <- IH. destruct (str_rstrip s); [done|]. simpl. by rewrite E.
  - rewrite rstrip_cons, E.
    destruct (str_rstrip s); simpl; by rewrite E.
Qed.

Lemma strip_idem s : str_strip (str_strip s) = str_strip s.
Proof.
  unfold str_strip. by rewrite lstrip_rstrip, rstrip_idem, lstrip_idem.
Qed.

Lemma lstrip_fmap (g : code_point → code_point) s :
  (∀ c, Char.isspace (g c) = Char.isspace c) →
  str_lstrip (g <$> s) = g <$> str_lstrip s.
Proof.
  intros Hg. induction s as [|c s IH]; [done|].
  rewrite fmap_cons. simpl. rewrite Hg. by destruct (Char.isspace c).
Qed.

Lemma strip_lower s : str_strip (str_lower s) = str_lower (str_strip s).
Proof.
  unfold str_strip, str_rstrip, str_lower.
  rewrite lstrip_fmap, <- fmap_reverse, lstrip_fmap, fmap_reverse;
    auto using lower_isspace.
Qed.

Lemma str_lower_idem s : str_lower (str_lower s) = str_lower s.
Proof.
  unfold str_lower. rewrite <- list_fmap_compose. apply list_fmap_ext.
  intros _ c _. apply lower_idem.
Qed.

Lemma trimmed_lower_idem name :
  trimmed_lower (trimmed_lower name) = trimmed_lower name.
Proof.
  unfold trimmed_lower.
  by rewrite <- strip_lower, str_lower_idem, strip_lower, strip_idem.
Qed.

Lemma trimmed_lower_stripped name :
  str_strip (trimmed_lower name) = trimmed_lower name.
Proof. unfold trimmed_lower. by rewrite strip_lower, strip_idem. Qed.

Lemma trimmed_lower_lowered name :
  str_lower (trimmed_lower name) = trimmed_lower name.
Proof. unfold trimmed_lower. by rewrite str_lower_idem. Qed.

(** ** The pantry table *)

Lemma NoDup_fmap_filter {A B} (f : A → B) (P : A → Prop)
    `{!∀ x, Decision (P x)} (l : list A) :
  NoDup (f <$> l) → NoDup (f <$> filter P l).
Proof.
  induction l as [|x l IH]; [done|].
  rewrite fmap_cons, NoDup_cons. intros [Hx Hl].
  rewrite filter_cons. case_decide; [|by apply IH].
  rewrite fmap_cons. apply NoDup_cons. split; [|by apply IH].
  intros (y & Hy & Hin)%list_elem_of_fmap.
  apply list_elem_of_filter in Hin as [_ Hin].
  apply Hx, list_elem_of_fmap. eauto.
Qed.

Lemma Forall_filter_keep {A} (Q P : A → Prop) `{!∀ x, Decision (P x)}
    (l : list A) :
  Forall Q l → Forall Q (filter P l).
Proof.
  rewrite !Forall_forall. intros HQ x [_ Hx]%list_elem_of_filter. auto.
Qed.

Lemma add_pantry_item_ok name db :
  pantry_ok db → pantry_ok (add_pantry_item name db).
Proof.
  intros [Hnd Hall]. unfold add_pantry_item.
  case_bool_decide; [done|]. fold (trimmed_lower name).
  case_bool_decide as Hin; [done|]. split; cbn [pantry_items].
  - rewrite fmap_app. apply NoDup_app. split_and!; [done| |].
    + intros x Hx Hx'. apply list_elem_of_singleton in Hx'. by subst.
    + apply NoDup_singleton.
  - apply Forall_app. split; [done|].
    constructor; [|constructor]. apply trimmed_lower_idem.
Qed.

Lemma remove_pantry_item_ok name db :
  pantry_ok db → pantry_ok (remove_pantry_item name db).
Proof.
  intros [Hnd Hall]. split; cbn [remove_pantry_item pantry_items].
  - by apply NoDup_fmap_filter.
  - by apply Forall_filter_keep.
Qed.

Lemma add_pantry_item_stored name db :
  name ≠ [] →
  trimmed_lower name ∈ pantry_name <$> pantry_items (add_pantry_item name db).
Proof.
  intros Hne. unfold add_pantry_item.
  rewrite bool_decide_eq_false_2 by done. fold (trimmed_lower name).
  case_bool_decide as Hin; [done|]. cbn [pantry_items].
  rewrite fmap_app. apply elem_of_app. right. by apply list_elem_of_singleton.
Qed.

Lemma add_pantry_item_present name db :
  trimmed_lower name ∈ pantry_name <$> pantry_items db →
  pantry_items (add_pantry_item name db) = pantry_items db.
Proof.
  intros Hin. unfold add_pantry_item. case_bool_decide; [done|].
  fold (trimmed_lower name). by rewrite bool_decide_eq_true_2.
Qed.

Lemma pantry_ok_lookup db i j p q :
  pantry_ok db →
  pantry_items db !! i = Some p → pantry_items db !! j = Some q →
  trimmed_lower (pantry_name p) = trimmed_lower (pantry_name q) → i = j.
Proof.
  intros [Hnd Hall] Hi Hj Heq. rewrite Forall_forall in Hall.
  rewrite !Hall in Heq by (by eapply list_elem_of_lookup_2).
  eapply NoDup_lookup; [exact Hnd| |].
  - rewrite list_lookup_fmap, Hi. reflexivity.
  - rewrite list_lookup_fmap, Hj. simpl. by rewrite Heq.
Qed.

Lemma filter_absent {A B} `{EqDecision B} (f : A → B) (x : B) (l : list A) :
  x ∉ f <$> l → filter (λ a, f a = x) l = [].
Proof.
  induction l as [|a l IH]; [done|].
  rewrite fmap_cons, not_elem_of_cons. intros [Hne Hl].
  rewrite filter_cons_False by done. by apply IH.
Qed.

Lemma count_unique {A B} `{EqDecision B} (f : A → B) (x : B) (l : list A) :
  NoDup (f <$> l) → x ∈ f <$> l →
  length (filter (λ a, f a = x) l) = 1.
Proof.
  induction l as [|a l IH]; [by intros _ ?%elem_of_nil|].
  rewrite fmap_cons, NoDup_cons, elem_of_cons. intros [Ha Hl] Hx.
  rewrite filter_cons. case_decide as Hfa.
  - subst x. simpl. by rewrite filter_absent.
  - destruct Hx as [->|Hx]; [done|]. by apply IH.
Qed.

(** ** The grocery table *)

Lemma add_grocery_item_items name db :
  name ≠ [] →
  grocery_items (add_grocery_item name db)
  = grocery_items db
      ++ [GroceryItem (grocery_seq db + 1) (str_lower (str_strip name)) 0].
Proof.
  intros Hne. unfold add_grocery_item.
  by rewrite bool_decide_eq_false_2.
Qed.

Lemma add_grocery_item_ok name db :
  grocery_ok db → grocery_ok (add_grocery_item name db).
Proof.
  intros Hok. unfold add_grocery_item. case_bool_decide; [done|].
  apply Forall_app. split; [done|].
  constructor; [|constructor]. apply trimmed_lower_idem.
Qed.

Lemma add_grocery_item_pantry name db :
  pantry_items (add_grocery_item name db) = pantry_items db.
Proof. unfold add_grocery_item. by case_bool_decide. Qed.

Lemma add_all_ok (missing : list str) db :
  grocery_ok db → grocery_ok (foldl (λ d m, add_grocery_item m d) db missing).
Proof.
  revert db. induction missing as [|m rest IH]; intros db Hok; [done|].
  simpl. by apply IH, add_grocery_item_ok.
Qed.

Lemma add_all_pantry (missing : list str) db :
  pantry_items (foldl (λ d m, add_grocery_item m d) db missing)
  = pantry_items db.
Proof.
  revert db. induction missing as [|m rest IH]; intros db; [done|].
  simpl. by rewrite IH, add_grocery_item_pantry.
Qed.

Lemma add_all_names (missing : list str) db :
  Forall (λ m, m ≠ []) missing →
  grocery_name <$> grocery_items (foldl (λ d m, add_grocery_item m d) db missing)
  = (grocery_name <$> grocery_items db) ++ (trimmed_lower <$> missing).
Proof.
  intros Hne. revert db.
  induction Hne as [|m rest Hm _ IH]; intros db.
  - simpl. by rewrite app_nil_r.
  - simpl. rewrite IH, add_grocery_item_items by done.
    rewrite fmap_app, <- app_assoc. reflexivity.
Qed.

(** ** Every call returns *)

Lemma compute_missing_ingredients_total db rid :
  sqlite_integer rid = true → is_Some (compute_missing_ingredients db rid).
Proof.
  intros Hrid. unfold compute_missing_ingredients.
  destruct (get_recipe db rid); [|rewrite Hrid; by eexists].
  rewrite missing_ingredients_spec. by eexists.
Qed.

Lemma step_total o db : is_Some (step o db).
Proof.
  destruct o; simpl; try by eexists.
  destruct (add_missing_to_grocery rid db) as [[m db']|]; by eexists.
Qed.

Lemma step_ok o db db' :
  step o db = Some db' → pantry_ok db ∧ grocery_ok db →
  pantry_ok db' ∧ grocery_ok db'.
Proof.
  intros Hstep [Hp Hg]. destruct o; simpl in Hstep; simplify_eq.
  - split; [by apply add_pantry_item_ok|].
    unfold add_pantry_item. by repeat case_bool_decide.
  - split; [by apply remove_pantry_item_ok|done].
  - split; [|by apply add_grocery_item_ok].
    unfold pantry_ok. by rewrite add_grocery_item_pantry.
  - split; [done|]. by apply Forall_filter_keep.
  - split; [done|]. constructor.
  - split; [done|]. apply Forall_fmap. eapply Forall_impl; [exact Hg|].
    intros g Hl. simpl. by case_decide.
  - unfold add_missing_to_grocery in Hstep.
    destruct (compute_missing_ingredients db rid) as [m|]; simplify_eq/=;
      [|done].
    split; [|by apply add_all_ok].
    unfold pantry_ok. by rewrite add_all_pantry.
Qed.

Lemma run_ok ops db :
  pantry_ok db → grocery_ok db →
  ∃ db', run ops db = Some db' ∧ pantry_ok db' ∧ grocery_ok db'.
Proof.
  revert db. induction ops as [|o rest IH]; intros db Hp Hg.
  - by exists db.
  - simpl. destruct (step_total o db) as [db1 Hstep]. rewrite Hstep. simpl.
    destruct (step_ok _ _ _ Hstep (conj Hp Hg)). by apply IH.
Qed.

Lemma fresh_ok rs : pantry_ok (fresh rs) ∧ grocery_ok (fresh rs).
Proof. repeat split; constructor. Qed.

(** ** The matcher on the tables *)

Lemma elem_of_pantry_set db key :
  key ∈ (list_to_set (list_pantry db) : gset str)
  ↔ key ∈ pantry_name <$> pantry_items db.
Proof.
  rewrite elem_of_list_to_set. unfold list_pantry.
  by rewrite merge_sort_Permutation.
Qed.

Lemma missing_ingredients_elem_of (lines : list str) pantry key :
  (∃ out, missing_ingredients lines pantry = Some out ∧ key ∈ out)
  ↔ (∃ line, line ∈ lines ∧ nonblank line ∧ comparison_key line = key)
    ∧ key ≠ [] ∧ key ∉ pantry.
Proof.
  rewrite missing_ingredients_spec. split.
  - intros (out & [= <-] & Hin).
    apply first_occurrences_elem_of, list_elem_of_filter in Hin
      as [[Hne Hp] Hin].
    apply list_elem_of_fmap in Hin as (line & -> & Hin).
    apply list_elem_of_filter in Hin as [Hnb Hin]. eauto 10.
  - intros [(line & Hin & Hnb & <-) [Hne Hp]].
    eexists. split; [done|].
    apply first_occurrences_elem_of, list_elem_of_filter. split; [done|].
    apply list_elem_of_fmap. exists line. split; [done|].
    by apply list_elem_of_filter.
Qed.

Lemma missing_ingredients_nonempty (lines : list str) pantry out :
  missing_ingredients lines pantry = Some out → Forall (λ m, m ≠ []) out.
Proof.
  intros Hout. apply Forall_forall. intros key Hin.
  by destruct (proj1 (missing_ingredients_elem_of lines pantry key))
    as (_ & ? & _); [eauto|].
Qed.

Lemma compute_missing_ingredients_nonempty db rid out :
  compute_missing_ingredients db rid = Some out → Forall (λ m, m ≠ []) out.
Proof.
  unfold compute_missing_ingredients.
  destruct (get_recipe db rid); [apply missing_ingredients_nonempty|].
  destruct (sqlite_integer rid); [|done]. intros [= <-]. constructor.
Qed.

(** ** Keys are already trimmed and lower-cased *)

Lemma tidy_lower c : tidy c → Char.lower c = c.
Proof.
  unfold tidy, solid, clean_char. intros [Hs Hc]. revert Hs Hc.
  destruct c as [[[] [] [] [] [] [] [] []]|]; vm_compute; congruence.
Qed.

Lemma lstrip_solid t : Forall solid t → str_lstrip t = t.
Proof. destruct 1 as [|c t Hc _]; [done|]. simpl. by rewrite Hc. Qed.

Lemma strip_solid t : Forall solid t → str_strip t = t.
Proof.
  intros Ht. unfold str_strip, str_rstrip.
  rewrite (lstrip_solid t) by done.
  rewrite lstrip_solid by (by apply Forall_reverse).
  apply reverse_involutive.
Qed.

Lemma tidy_word_trimmed t : word tidy t → trimmed_lower t = t.
Proof.
  intros Hw. unfold trimmed_lower.
  rewrite strip_solid by apply (word_tidy_solid _ Hw).
  apply fmap_fixed. destruct Hw as [_ Ht].
  eapply Forall_impl; [exact Ht|]. apply tidy_lower.
Qed.

Lemma comparison_key_trimmed line :
  trimmed_lower (comparison_key line) = comparison_key line.
Proof.
  unfold comparison_key.
  destruct (normalize_tokens line) as (toks & -> & Hw & _).
  rewrite split_normalized by done.
  destruct (last toks) as [t|] eqn:E; [|done]. simpl.
  apply tidy_word_trimmed.
  rewrite Forall_forall in Hw. by apply Hw, last_Some_elem_of.
Qed.

Lemma missing_ingredients_trimmed (lines : list str) pantry out :
  missing_ingredients lines pantry = Some out → trimmed_lower <$> out = out.
Proof.
  intros Hout. 
  assert (Forall (λ k, trimmed_lower k = k) out) as Hall.
  { apply Forall_forall. intros key Hin.
    destruct (proj1 (missing_ingredients_elem_of lines pantry key))
      as ((line & _ & _ & <-) & _); [eauto|].
    apply comparison_key_trimmed. }
  clear Hout. induction Hall; [done|]. rewrite fmap_cons. congruence.
Qed.

Lemma compute_missing_ingredients_trimmed db rid out :
  compute_missing_ingredients db rid = Some out → trimmed_lower <$> out = out.
Proof.
  unfold compute_missing_ingredients.
  destruct (get_recipe db rid); [apply missing_ingredients_trimmed|].
  destruct (sqlite_integer rid); [|done]. by intros [= <-].
Qed.

(** * The claims *)

(** C1: [missing_ingredients] works through exactly the non-blank lines,
    in order; the key of a line is the last whitespace-separated token
    of its normalised form, and a key is reported exactly when it is
    non-empty and not in the pantry set.  On the crepes lines with flour
    and eggs in the pantry the result is [milk]. *)
Theorem missing_ingredients_by_last_token :
  ∀ (lines : list str) (pantry : gset str),
    (∀ line,
       key_of_item (_normalize_ingredient line) = Some (comparison_key line))
    ∧ missing_ingredients lines pantry
      = Some (first_occurrences
                (filter (is_missing pantry)
                   (comparison_key <$> filter nonblank lines)))
    ∧ (∀ key,
         (∃ out, missing_ingredients lines pantry = Some out ∧ key ∈ out)
         ↔ (∃ line, line ∈ lines ∧ nonblank line ∧ comparison_key line = key)
           ∧ key ≠ [] ∧ key ∉ pantry)
    ∧ missing_ingredients
        [py "1 cup flour"; py "2 eggs"; py "1/2 cup milk"]
        {[py "flour"; py "eggs"]}
      = Some [py "milk"].
Proof.
  intros lines pantry. split_and!.
  - apply key_of_item_normalized.
  - apply missing_ingredients_spec.
  - apply missing_ingredients_elem_of.
  - vm_compute. reflexivity.
Qed.

(** C2: [_normalize_ingredient] equals the reference pipeline of the
    specification on every input, and maps "2 cups whole Milk." to
    "cups whole milk". *)
Theorem normalize_matches_reference :
  (∀ line, _normalize_ingredient line = normalize_reference line)
  ∧ _normalize_ingredient (py "2 cups whole Milk.") = py "cups whole milk".
Proof.
  split; [|vm_compute; reflexivity].
  intros line. rewrite normalize_unfold. unfold normalize_reference.
  rewrite split_fmap_strip by apply clean_char_blank.
  rewrite <- list_fmap_compose. f_equal.
  apply list_filter_iff. intros tok.
  by rewrite str_isdigit_purely_numeric.
Qed.

(** C3: the output of [missing_ingredients] has no duplicate, and its
    keys stand in the order of the first lines that produce them; two
    sugar lines against the empty pantry give one [sugar]. *)
Theorem missing_ingredients_unique_in_order :
  (∀ (lines : list str) (pantry : gset str),
     ∃ out,
       missing_ingredients lines pantry = Some out
       ∧ NoDup out
       ∧ ∀ i j a b,
           i < j → out !! i = Some a → out !! j = Some b →
           ∃ p q,
             first_line_producing a lines = Some p
             ∧ first_line_producing b lines = Some q ∧ p < q)
  ∧ missing_ingredients [py "3 tbsp sugar"; py "1 tbsp sugar"] ∅
    = Some [py "sugar"].
Proof.
  split; [|vm_compute; reflexivity].
  intros lines pantry. eexists. split; [apply missing_ingredients_spec|].
  split; [apply first_occurrences_NoDup|].
  intros i j a b Hlt Ha Hb.
  rewrite missing_keys_all_lines, first_occurrences_filter in Ha, Hb.
  eapply (StronglySorted_lookup_lt (produced_before lines)); [|done..].
  eapply StronglySorted_filter_impl; [|apply first_occurrences_sorted].
  auto.
Qed.

(** C5: the matcher never raises.  The empty line normalises to the empty
    key, the guarded index of the last token always has a value, every
    call of [missing_ingredients] returns, and so does every call of
    [compute_missing_ingredients] with an id that can be bound; the
    empty key is never in the output, and a line whose key is empty can
    be dropped from the input without changing the result. *)
Theorem matcher_never_raises :
  _normalize_ingredient [] = []
  ∧ (∀ item, is_Some (key_of_item item))
  ∧ (∀ (lines : list str) (pantry : gset str),
       ∃ out, missing_ingredients lines pantry = Some out ∧ [] ∉ out)
  ∧ (∀ db rid,
       sqlite_integer rid = true →
       is_Some (compute_missing_ingredients db rid))
  ∧ (∀ (before after : list str) line (pantry : gset str),
       comparison_key line = [] →
       missing_ingredients (before ++ line :: after) pantry
       = missing_ingredients (before ++ after) pantry).
Proof.
  split_and!.
  - reflexivity.
  - intros item. unfold key_of_item, index_last.
    case_bool_decide; [by apply last_is_Some|by eexists].
  - intros lines pantry. eexists. split; [apply missing_ingredients_spec|].
    rewrite first_occurrences_elem_of, list_elem_of_filter.
    by intros [[? _] _].
  - apply compute_missing_ingredients_total.
  - intros before after line pantry Hkey.
    rewrite !missing_ingredients_spec, !missing_keys_all_lines.
    rewrite !fmap_app, !filter_app, fmap_cons.
    rewrite filter_cons_False; [done|].
    rewrite Hkey. by intros [? _].
Qed.

Lemma matcher_never_raises_witness :
  comparison_key (py " 12 ") = []
  ∧ missing_ingredients [py "2 eggs"; py " 12 "; py "1 cup milk"] ∅
    = missing_ingredients [py "2 eggs"; py "1 cup milk"] ∅.
Proof.
  assert (comparison_key (py " 12 ") = []) as Hkey
    by (vm_compute; reflexivity).
  split; [exact Hkey|].
  exact (proj2 (proj2 (proj2 (proj2 matcher_never_raises)))
           [py "2 eggs"] [py "1 cup milk"] (py " 12 ") ∅ Hkey).
Defined.

(** C6: [_normalize_ingredient] is idempotent. *)
Theorem normalize_idempotent :
  ∀ s, _normalize_ingredient (_normalize_ingredient s) = _normalize_ingredient s.
Proof.
  intros s. destruct (normalize_tokens s) as (toks & -> & Hw & Hd).
  by apply normalize_of_tokens.
Qed.

(** C7: for the line "1/4 tsp red pepper flakes" and the pantry
    [{pepper}] the result is [flakes]: "1/4" is not a digit token and
    stays, the key is the last token, and it is not the pantry entry. *)
Theorem red_pepper_flakes_missing :
  str_isdigit (py "1/4") = false
  ∧ _normalize_ingredient (py "1/4 tsp red pepper flakes")
    = py "1/4 tsp red pepper flakes"
  ∧ key_of_item (_normalize_ingredient (py "1/4 tsp red pepper flakes"))
    = Some (py "flakes")
  ∧ missing_ingredients [py "1/4 tsp red pepper flakes"] {[py "pepper"]}
    = Some [py "flakes"].
Proof. split_and!; vm_compute; reflexivity. Qed.

Lemma filter_ext_Forall {A} (P Q : A → Prop) `{!∀ x, Decision (P x)}
    `{!∀ x, Decision (Q x)} (l : list A) :
  Forall (λ x, P x ↔ Q x) l → filter P l = filter Q l.
Proof.
  induction 1 as [|x l Hx _ IH]; [done|].
  rewrite !filter_cons, IH. apply decide_ext, Hx.
Qed.

Lemma add_pantry_item_mono name db x :
  x ∈ pantry_name <$> pantry_items db →
  x ∈ pantry_name <$> pantry_items (add_pantry_item name db).
Proof.
  intros Hx. unfold add_pantry_item. repeat case_bool_decide; try done.
  cbn [pantry_items]. rewrite fmap_app. apply elem_of_app. by left.
Qed.

Lemma get_recipe_unknown db rid :
  rid ∉ recipe_id <$> recipes db → get_recipe db rid = None.
Proof.
  intros Hrid. unfold get_recipe.
  destruct (list_find _ (recipes db)) as [[i r]|] eqn:E; [|done].
  apply list_find_Some in E as (Hi & <- & _).
  destruct Hrid. apply list_elem_of_fmap. exists r.
  split; [done|]. by eapply list_elem_of_lookup_2.
Qed.

(** C4, the claim as written fails: the pantry keeps punctuation and
    numeric tokens of the name it is given, so a stored entry need not be
    a fixed point of the normaliser. *)
Lemma pantry_entry_not_normalized :
  pantry_name <$> pantry_items (add_pantry_item (py "Olive Oil, 2 tbsp") init_db)
  = [py "olive oil, 2 tbsp"]
  ∧ _normalize_ingredient (py "olive oil, 2 tbsp") = py "olive oil tbsp"
  ∧ ¬ (∀ name db entry,
         entry ∈ pantry_name <$> pantry_items (add_pantry_item name db) →
         entry ∉ pantry_name <$> pantry_items db →
         _normalize_ingredient entry = entry).
Proof.
  split_and!; [vm_compute; reflexivity..|].
  intros H.
  specialize (H (py "Olive Oil, 2 tbsp") init_db (py "olive oil, 2 tbsp")).
  assert (_normalize_ingredient (py "olive oil, 2 tbsp")
          = py "olive oil, 2 tbsp") as Hfix.
  { apply H; vm_compute; [left|intros Hin; inversion Hin]. }
  vm_compute in Hfix. discriminate Hfix.
Qed.

(** C4, amended: membership in the pantry is exact equality of the
    line's key with the name of a pantry row, nothing being applied to
    the rows; and the name stored by [add_pantry_item] is the given name
    trimmed and lower-cased, a fixed point of trimming and of
    lower-casing. *)
Theorem pantry_membership_exact_entries_trimmed :
  (∀ db rid recipe,
     get_recipe db rid = Some recipe →
     ∃ out,
       compute_missing_ingredients db rid = Some out
       ∧ ∀ key,
           key ∈ out
           ↔ (∃ line, line ∈ str_splitlines (ingredients_text recipe)
                      ∧ nonblank line ∧ comparison_key line = key)
             ∧ key ≠ []
             ∧ ∀ p, p ∈ pantry_items db → pantry_name p ≠ key)
  ∧ (∀ name db,
       name ≠ [] →
       let stored := str_lower (str_strip name) in
       stored ∈ pantry_name <$> pantry_items (add_pantry_item name db)
       ∧ str_strip stored = stored
       ∧ str_lower stored = stored
       ∧ (pantry_items (add_pantry_item name db) = pantry_items db
          ∨ pantry_items (add_pantry_item name db)
            = pantry_items db ++ [PantryItem (pantry_seq db + 1) stored])).
Proof.
  split.
  - intros db rid recipe Hget. unfold compute_missing_ingredients.
    rewrite Hget.
    destruct (missing_ingredients (str_splitlines (ingredients_text recipe))
                (list_to_set (list_pantry db))) as [out|] eqn:Hout;
      [|by rewrite missing_ingredients_spec in Hout].
    exists out. split; [done|]. intros key.
    pose proof (missing_ingredients_elem_of
                  (str_splitlines (ingredients_text recipe))
                  (list_to_set (list_pantry db)) key) as Hiff.
    rewrite Hout in Hiff. rewrite elem_of_pantry_set in Hiff.
    rewrite list_elem_of_fmap in Hiff.
    split.
    + intros Hin. destruct (proj1 Hiff) as (Hl & Hne & Hp); [eauto|].
      split_and!; [done..|]. intros p Hpin Heq. apply Hp. eauto.
    + intros (Hl & Hne & Hp).
      destruct (proj2 Hiff) as (out' & [= <-] & Hin); [|done].
      split_and!; [done..|]. intros (p & -> & Hpin). by apply (Hp p).
  - intros name db Hne stored. split_and!.
    + by apply add_pantry_item_stored.
    + apply trimmed_lower_stripped.
    + apply trimmed_lower_lowered.
    + unfold add_pantry_item. repeat case_bool_decide; auto.
Qed.

Lemma pantry_membership_exact_entries_trimmed_witness :
  py "Flour " ≠ []
  ∧ py "flour"
    ∈ (pantry_name <$> pantry_items (add_pantry_item (py "Flour ") init_db))
  ∧ str_strip (py "flour") = py "flour"
  ∧ str_lower (py "flour") = py "flour".
Proof.
  assert (py "Flour " ≠ []) as Hne by discriminate.
  split; [exact Hne|].
  destruct (proj2 pantry_membership_exact_entries_trimmed
              (py "Flour ") init_db Hne) as (Hin & Hs & Hl & _).
  exact (conj Hin (conj Hs Hl)).
Defined.

(** C8: after any sequence of operations on a new data base no two
    pantry rows agree after trimming and lower-casing, and adding two
    names that agree in that way leaves exactly one row for them: the
    second add leaves the rows as the first left them. *)
Theorem pantry_unique_trimmed_lower :
  ∀ (ops : list op) (rs : list recipe),
    ∃ db,
      run ops (fresh rs) = Some db
      ∧ (∀ i j p q,
           pantry_items db !! i = Some p → pantry_items db !! j = Some q →
           trimmed_lower (pantry_name p) = trimmed_lower (pantry_name q) →
           i = j)
      ∧ (∀ n1 n2,
           n1 ≠ [] ∨ n2 ≠ [] → trimmed_lower n1 = trimmed_lower n2 →
           length
             (filter (λ p, trimmed_lower (pantry_name p) = trimmed_lower n1)
                (pantry_items (add_pantry_item n2 (add_pantry_item n1 db))))
           = 1)
      ∧ (∀ n1 n2,
           n1 ≠ [] → trimmed_lower n1 = trimmed_lower n2 →
           pantry_items (add_pantry_item n2 (add_pantry_item n1 db))
           = pantry_items (add_pantry_item n1 db)).
Proof.
  intros ops rs.
  destruct (fresh_ok rs) as [Hp0 Hg0].
  destruct (run_ok ops (fresh rs) Hp0 Hg0) as (db & Hrun & Hp & _).
  exists db. split_and!; [done| | |].
  - intros i j p q. by apply pantry_ok_lookup.
  - intros n1 n2 Hne Heq.
    assert (pantry_ok (add_pantry_item n2 (add_pantry_item n1 db)))
      as [Hnd Hall] by auto using add_pantry_item_ok.
    rewrite (filter_ext_Forall _ (λ p, pantry_name p = trimmed_lower n1)).
    + apply (count_unique pantry_name); [done|].
      destruct (decide (n1 = [])) as [->|Hn1].
      * rewrite Heq. apply add_pantry_item_stored. by destruct Hne.
      * by apply add_pantry_item_mono, add_pantry_item_stored.
    + eapply Forall_impl; [exact Hall|]. intros p Hcanon. simpl.
      by rewrite Hcanon.
  - intros n1 n2 Hne Heq. apply add_pantry_item_present.
    rewrite <- Heq. by apply add_pantry_item_stored.
Qed.

Lemma pantry_unique_trimmed_lower_witness :
  py "Milk" ≠ []
  ∧ trimmed_lower (py "Milk") = trimmed_lower (py " milk ")
  ∧ ∃ db,
      run [AddPantryItem (py "Eggs"); RemovePantryItem (py "eggs")]
        (fresh sample_recipes) = Some db
      ∧ pantry_items (add_pantry_item (py " milk ") (add_pantry_item (py "Milk") db))
        = pantry_items (add_pantry_item (py "Milk") db).
Proof.
  assert (py "Milk" ≠ []) as Hne by discriminate.
  assert (trimmed_lower (py "Milk") = trimmed_lower (py " milk ")) as Heq
    by (vm_compute; reflexivity).
  split; [exact Hne|]. split; [exact Heq|].
  destruct (pantry_unique_trimmed_lower
              [AddPantryItem (py "Eggs"); RemovePantryItem (py "eggs")]
              sample_recipes) as (db & Hrun & _ & _ & Hsame).
  exists db. split; [exact Hrun|]. exact (Hsame _ _ Hne Heq).
Defined.

Lemma fmap_fixed_elem (g : code_point → code_point) (s : str) c :
  g <$> s = s → c ∈ s → g c = c.
Proof.
  induction s as [|x s IH]; [by intros _ ?%elem_of_nil|].
  rewrite fmap_cons. intros [= Hx Hs] [->|Hin]%elem_of_cons; auto.
Qed.

(** C9, the claim as written fails: lower-casing leaves an upper-case
    letter that has no small letter as it is, and [add_grocery_item]
    stores it. *)
Lemma grocery_name_keeps_upper_case :
  grocery_name <$> grocery_items (add_grocery_item [U03D2] init_db)
  = [[U03D2]]
  ∧ Char.isupper U03D2 = true
  ∧ ¬ (∀ (ops : list op) (rs : list recipe) db g c,
         run ops (fresh rs) = Some db →
         g ∈ grocery_items db → c ∈ grocery_name g →
         Char.isupper c = false).
Proof.
  split_and!; [vm_compute; reflexivity..|].
  intros H.
  specialize (H [AddGroceryItem [U03D2]] [] _ (GroceryItem 1 [U03D2] 0) U03D2
                eq_refl).
  assert (Char.isupper U03D2 = false) as Habs; [|discriminate Habs].
  apply H; vm_compute; apply list_elem_of_here.
Qed.

(** C9, amended: [add_grocery_item] stores a non-empty name trimmed and
    lower-cased, [add_missing_to_grocery] appends each key that
    [compute_missing_ingredients] returns in that form (which is the key
    itself), and after any sequence of operations on a new data base
    every grocery name is unchanged by trimming and by lower-casing: the
    upper-case characters it holds are those that lower-casing leaves as
    they are. *)
Theorem grocery_names_lower_cased :
  (∀ name db,
     name ≠ [] →
     grocery_items (add_grocery_item name db)
     = grocery_items db
         ++ [GroceryItem (grocery_seq db + 1) (str_lower (str_strip name)) 0])
  ∧ (∀ rid db missing,
       compute_missing_ingredients db rid = Some missing →
       ∃ db',
         add_missing_to_grocery rid db = Some (missing, db')
         ∧ grocery_name <$> grocery_items db'
           = (grocery_name <$> grocery_items db)
               ++ (trimmed_lower <$> missing)
         ∧ trimmed_lower <$> missing = missing)
  ∧ (∀ (ops : list op) (rs : list recipe),
       ∃ db,
         run ops (fresh rs) = Some db
         ∧ ∀ g, g ∈ grocery_items db →
                str_strip (grocery_name g) = grocery_name g
                ∧ str_lower (grocery_name g) = grocery_name g
                ∧ ∀ c, c ∈ grocery_name g →
                       Char.isupper c = true → Char.lower c = c).
Proof.
  split_and!.
  - apply add_grocery_item_items.
  - intros rid db m Hm. unfold add_missing_to_grocery.
    rewrite Hm. eexists. split; [reflexivity|]. split.
    + apply add_all_names. by eapply compute_missing_ingredients_nonempty.
    + by eapply compute_missing_ingredients_trimmed.
  - intros ops rs. destruct (fresh_ok rs) as [Hp0 Hg0].
    destruct (run_ok ops (fresh rs) Hp0 Hg0) as (db & Hrun & _ & Hg).
    exists db. split; [done|]. intros g Hin.
    unfold grocery_ok in Hg. rewrite Forall_forall in Hg.
    specialize (Hg g Hin).
    assert (str_lower (grocery_name g) = grocery_name g) as Hlow
      by (rewrite <- Hg at 1; rewrite trimmed_lower_lowered; exact Hg).
    split_and!; [|done|].
    + rewrite <- Hg at 1. rewrite trimmed_lower_stripped. exact Hg.
    + intros c Hc _. by apply (fmap_fixed_elem Char.lower (grocery_name g)).
Qed.

Lemma grocery_names_lower_cased_witness :
  py " Brown Sugar" ≠ []
  ∧ grocery_items (add_grocery_item (py " Brown Sugar") init_db)
    = [GroceryItem 1 (py "brown sugar") 0].
Proof.
  assert (py " Brown Sugar" ≠ []) as Hne by discriminate.
  split; [exact Hne|].
  exact (proj1 grocery_names_lower_cased (py " Brown Sugar") init_db Hne).
Defined.

(** C10, the claim as written fails: an id that is no signed 64-bit
    integer names no stored recipe, and the call raises instead of
    returning the empty list. *)
Lemma unknown_recipe_out_of_range_raises :
  ((2 ^ 63)%Z ∉ recipe_id <$> recipes init_db)
  ∧ compute_missing_ingredients init_db (2 ^ 63) = None
  ∧ add_missing_to_grocery (2 ^ 63) init_db = None
  ∧ ¬ (∀ db rid,
         rid ∉ recipe_id <$> recipes db →
         compute_missing_ingredients db rid = Some []).
Proof.
  assert ((2 ^ 63)%Z ∉ recipe_id <$> recipes init_db) as Hrid by compute_done.
  split_and!; [done|vm_compute; reflexivity..|].
  intros H. specialize (H init_db (2 ^ 63)%Z Hrid).
  vm_compute in H. discriminate H.
Qed.

(** C10, amended: for an id that names no stored recipe and is a signed
    64-bit integer, [compute_missing_ingredients] returns the empty
    list, and [add_missing_to_grocery] returns the empty list and the
    data base as it was; for any other id that names no stored recipe
    both calls raise, and the data base is as it was. *)
Theorem unknown_recipe_nothing_missing :
  ∀ db rid,
    rid ∉ recipe_id <$> recipes db →
    (sqlite_integer rid = true →
     compute_missing_ingredients db rid = Some []
     ∧ add_missing_to_grocery rid db = Some ([], db))
    ∧ (sqlite_integer rid = false →
       compute_missing_ingredients db rid = None
       ∧ add_missing_to_grocery rid db = None
       ∧ run [AddMissingToGrocery rid] db = Some db).
Proof.
  intros db rid Hrid. apply get_recipe_unknown in Hrid.
  unfold run, step, add_missing_to_grocery, compute_missing_ingredients.
  rewrite Hrid. split; intros ->; by split_and!.
Qed.

Lemma unknown_recipe_nothing_missing_witness :
  (7%Z ∉ recipe_id <$> recipes init_db)
  ∧ sqlite_integer 7 = true
  ∧ compute_missing_ingredients init_db 7 = Some []
  ∧ add_missing_to_grocery 7 init_db = Some ([], init_db).
Proof.
  assert (7%Z ∉ recipe_id <$> recipes init_db) as H by compute_done.
  assert (sqlite_integer 7 = true) as Hint by reflexivity.
  split; [exact H|]. split; [exact Hint|].
  exact (proj1 (unknown_recipe_nothing_missing init_db 7 H) Hint).
Defined.

(** * Further properties of the code *)

(** ** The normaliser *)

Lemma tidy_shape c : tidy c → bool_decide (c ∈ punctuation) = false.
Proof.
  unfold tidy, solid, clean_char. intros [Hs Hc]. revert Hs Hc.
  destruct c as [[[] [] [] [] [] [] [] []]|]; vm_compute; congruence.
Qed.

Lemma clean_char_lower c : clean_char (Char.lower c) = clean_char c.
Proof. unfold clean_char. by rewrite lower_idem. Qed.

(** The normaliser without its initial [strip]. *)
Lemma normalize_unstripped line :
  _normalize_ingredient line
  = str_join (py " ")
      (filter (λ tok, str_isdigit tok = false)
         (str_split (clean_char <$> line))).
Proof.
  rewrite normalize_unfold.
  by rewrite split_fmap_strip by apply clean_char_blank.
Qed.

Lemma rstrip_app a b :
  str_rstrip b ≠ [] → str_rstrip (a ++ b) = a ++ str_rstrip b.
Proof.
  intros Hb. induction a as [|c a IH]; [done|].
  simpl. rewrite rstrip_cons, IH.
  destruct (a ++ str_rstrip b) eqn:E; [|done].
  by apply app_eq_nil in E as [_ ?].
Qed.

Lemma rstrip_solid t : Forall solid t → str_rstrip t = t.
Proof.
  intros Ht. unfold str_rstrip.
  rewrite lstrip_solid by (by apply Forall_reverse).
  apply reverse_involutive.
Qed.

Lemma join_words_nonempty (toks : list str) :
  Forall (word solid) toks → toks ≠ [] → str_join (py " ") toks ≠ [].
Proof.
  destruct 1 as [|t rest [Hne _] _]; [done|]. intros _. simpl.
  destruct rest; [done|]. by destruct t.
Qed.

Lemma join_cons_cons sep (t t' : str) (rest : list str) :
  str_join sep (t :: t' :: rest) = t ++ sep ++ str_join sep (t' :: rest).
Proof. reflexivity. Qed.

Lemma strip_join_words (toks : list str) :
  Forall (word solid) toks →
  str_strip (str_join (py " ") toks) = str_join (py " ") toks.
Proof.
  intros Hw. unfold str_strip.
  assert (str_lstrip (str_join (py " ") toks) = str_join (py " ") toks)
    as ->.
  { destruct Hw as [|t rest [Hne Ht] _]; [done|].
    destruct Ht as [|c t Hc _]; [done|].
    simpl. destruct rest; simpl; by rewrite Hc. }
  induction Hw as [|t rest [Hne Ht] Hrest IH]; [done|].
  destruct rest as [|t' rest].
  - by apply rstrip_solid.
  - rewrite join_cons_cons, app_assoc, rstrip_app; rewrite IH.
    + done.
    + by apply join_words_nonempty.
Qed.

Lemma space_not_punctuation : Latin1 " " ∉ punctuation.
Proof. compute_done. Qed.

(** X1: a normalised string holds no punctuation character, its only
    whitespace is the single space, it has no whitespace at either end,
    it is the single-space join of its own tokens, and none of its
    tokens is empty or made of digits only. *)
Theorem normalize_output_shape :
  ∀ line,
    let n := _normalize_ingredient line in
    Forall (λ c, (c ∉ punctuation)
                 ∧ (Char.isspace c = true → c = Latin1 " ")) n
    ∧ str_strip n = n
    ∧ str_join (py " ") (str_split n) = n
    ∧ Forall (λ tok, tok ≠ [] ∧ str_isdigit tok = false) (str_split n).
Proof.
  intros line n. subst n.
  destruct (normalize_tokens line) as (toks & -> & Hw & Hd).
  rewrite split_normalized by done. split_and!.
  - apply join_Forall.
    + constructor; [|constructor]. split; [|done].
      apply space_not_punctuation.
    + eapply Forall_impl; [exact Hw|]. intros t [_ Ht].
      eapply Forall_impl; [exact Ht|]. intros c Hc.
      pose proof (tidy_shape c Hc) as Hp. split.
      * by apply bool_decide_eq_false in Hp.
      * destruct Hc as [Hs _]. unfold solid in Hs. congruence.
  - apply strip_join_words.
    eapply Forall_impl; [exact Hw|]. apply word_tidy_solid.
  - done.
  - rewrite Forall_forall in Hw, Hd. apply Forall_forall.
    intros t Ht. split; [by apply Hw|by apply Hd].
Qed.

(** X2: the normaliser gives the same result for a line, for its
    lower-cased form, for its stripped form, and for the line with
    whitespace put before and after it. *)
Theorem normalize_ignores_case_margin :
  (∀ s, _normalize_ingredient (str_lower s) = _normalize_ingredient s)
  ∧ (∀ s, _normalize_ingredient (str_strip s) = _normalize_ingredient s)
  ∧ (∀ before s after,
       Forall (λ c, Char.isspace c = true) before →
       Forall (λ c, Char.isspace c = true) after →
       _normalize_ingredient (before ++ s ++ after) = _normalize_ingredient s).
Proof.
  split_and!.
  - intros s. rewrite !normalize_unstripped. unfold str_lower.
    rewrite <- list_fmap_compose. do 3 f_equal.
    apply list_fmap_ext. intros _ c _. apply clean_char_lower.
  - intros s. rewrite (normalize_unfold s). apply normalize_unstripped.
  - intros before s after Hb Ha. rewrite !normalize_unstripped.
    rewrite !fmap_app. unfold str_split.
    rewrite split_go_blank_l, split_go_blank_r; [done| |].
    + apply Forall_fmap. eapply Forall_impl; [exact Ha|].
      apply clean_char_blank.
    + apply Forall_fmap. eapply Forall_impl; [exact Hb|].
      apply clean_char_blank.
Qed.

Lemma normalize_ignores_case_margin_witness :
  Forall (λ c, Char.isspace c = true) (py "  ")
  ∧ Forall (λ c, Char.isspace c = true) (py " ")
  ∧ _normalize_ingredient (py "  " ++ py "2 Eggs" ++ py " ")
    = _normalize_ingredient (py "2 Eggs").
Proof.
  assert (Forall (λ c, Char.isspace c = true) (py "  ")) as Hb
    by (repeat constructor).
  assert (Forall (λ c, Char.isspace c = true) (py " ")) as Ha
    by (repeat constructor).
  split; [exact Hb|]. split; [exact Ha|].
  exact (proj2 (proj2 normalize_ignores_case_margin) _ (py "2 Eggs") _ Hb Ha).
Defined.

(** ** The matcher *)

Lemma comparison_key_cases line :
  comparison_key line = []
  ∨ word tidy (comparison_key line) ∧ str_isdigit (comparison_key line) = false.
Proof.
  unfold comparison_key.
  destruct (normalize_tokens line) as (toks & -> & Hw & Hd).
  rewrite split_normalized by done.
  destruct (last toks) as [t|] eqn:E; [|by left]. right. simpl.
  apply last_Some_elem_of in E. rewrite Forall_forall in Hw, Hd. auto.
Qed.

(** X3: a comparison key holds no whitespace and no punctuation, is
    never a number, and is empty exactly when the normalised line is. *)
Theorem comparison_key_shape :
  ∀ line,
    let key := comparison_key line in
    Forall (λ c, Char.isspace c = false ∧ (c ∉ punctuation)) key
    ∧ str_isdigit key = false
    ∧ (key = [] ↔ _normalize_ingredient line = []).
Proof.
  intros line key. subst key. split_and!.
  - destruct (comparison_key_cases line) as [->|[[_ Hk] _]]; [constructor|].
    eapply Forall_impl; [exact Hk|]. intros c Hc.
    pose proof (tidy_shape c Hc) as Hp. destruct Hc as [Hs _].
    split; [done|]. by apply bool_decide_eq_false in Hp.
  - by destruct (comparison_key_cases line) as [->|[_ Hd]].
  - unfold comparison_key.
    destruct (normalize_tokens line) as (toks & -> & Hw & _).
    rewrite split_normalized by done. split.
    + destruct (last toks) as [t|] eqn:E; simpl.
      * intros ->. apply last_Some_elem_of in E.
        rewrite Forall_forall in Hw. by destruct (Hw [] E).
      * apply last_None in E. by subst.
    + intros Hnil. destruct toks as [|t toks]; [done|].
      destruct (join_words_nonempty (t :: toks)); [|done..].
      eapply Forall_impl; [exact Hw|]. apply word_tidy_solid.
Qed.

Lemma first_occurrences_app (a b : list str) :
  first_occurrences (a ++ b)
  = first_occurrences a ++ filter (λ y, y ∉ a) (first_occurrences b).
Proof.
  induction a as [|x a IH]; simpl.
  - symmetry. apply filter_all, Forall_forall. intros y _. apply not_elem_of_nil.
  - rewrite IH, filter_app, list_filter_filter. do 2 f_equal.
    apply list_filter_iff. intros y. rewrite not_elem_of_cons. tauto.
Qed.

Lemma missing_ingredients_union (lines : list str) (pantry more : gset str) :
  missing_ingredients lines (pantry ∪ more)
  = filter (λ key, key ∉ more) <$> missing_ingredients lines pantry.
Proof.
  rewrite !missing_ingredients_spec. simpl.
  f_equal. rewrite <- first_occurrences_filter, list_filter_filter.
  f_equal. apply list_filter_iff. intros key. unfold is_missing.
  rewrite not_elem_of_union. tauto.
Qed.

(** X4: a larger pantry only removes keys from the result, in place. *)
Theorem missing_ingredients_larger_pantry :
  ∀ (lines : list str) (pantry more : gset str),
    missing_ingredients lines (pantry ∪ more)
    = filter (λ key, key ∉ more) <$> missing_ingredients lines pantry.
Proof. apply missing_ingredients_union. Qed.

(** X5: the result for two lists of lines one after the other is the
    result for the first, then the keys of the second that the first
    did not report. *)
Theorem missing_ingredients_app :
  ∀ (lines1 lines2 : list str) (pantry : gset str),
    ∃ out1 out2,
      missing_ingredients lines1 pantry = Some out1
      ∧ missing_ingredients lines2 pantry = Some out2
      ∧ missing_ingredients (lines1 ++ lines2) pantry
        = Some (out1 ++ filter (λ key, key ∉ out1) out2).
Proof.
  intros lines1 lines2 pantry. do 2 eexists.
  split; [apply missing_ingredients_spec|].
  split; [apply missing_ingredients_spec|].
  rewrite missing_ingredients_spec. f_equal.
  rewrite filter_app, fmap_app, filter_app, first_occurrences_app.
  f_equal. apply list_filter_iff. intros key.
  by rewrite first_occurrences_elem_of.
Qed.

(** X6: nothing is missing exactly when every line has an empty key or
    a key in the pantry. *)
Theorem nothing_missing_iff :
  ∀ (lines : list str) (pantry : gset str),
    missing_ingredients lines pantry = Some []
    ↔ ∀ line, line ∈ lines →
              comparison_key line = [] ∨ comparison_key line ∈ pantry.
Proof.
  intros lines pantry.
  rewrite missing_ingredients_spec, missing_keys_all_lines. split.
  - intros [= Hnil] line Hin.
    destruct (decide (comparison_key line = [])) as [|Hne]; [by left|].
    destruct (decide (comparison_key line ∈ pantry)) as [|Hp]; [by right|].
    assert (comparison_key line ∈ @nil str) as Habs; [|by inversion Habs].
    rewrite <- Hnil. apply first_occurrences_elem_of, list_elem_of_filter.
    split; [done|]. apply list_elem_of_fmap. eauto.
  - intros Hall. f_equal. apply elem_of_nil_inv. intros key Hin.
    apply first_occurrences_elem_of, list_elem_of_filter in Hin
      as [[Hne Hp] Hin].
    apply list_elem_of_fmap in Hin as (line & -> & Hin).
    destruct (Hall line Hin); done.
Qed.

(** ** The pantry and the matcher *)

Lemma pantry_set_add name db :
  name ≠ [] →
  (list_to_set (list_pantry (add_pantry_item name db)) : gset str)
  = list_to_set (list_pantry db) ∪ {[trimmed_lower name]}.
Proof.
  intros Hne. apply set_eq. intros x.
  rewrite elem_of_union, elem_of_singleton, !elem_of_pantry_set.
  unfold add_pantry_item. rewrite bool_decide_eq_false_2 by done.
  fold (trimmed_lower name). case_bool_decide as Hin.
  - split; [auto|]. by intros [?| ->].
  - cbn [pantry_items]. rewrite fmap_app, elem_of_app.
    cbn [fmap list_fmap pantry_name]. by rewrite list_elem_of_singleton.
Qed.

Lemma pantry_set_remove name db :
  (list_to_set (list_pantry (remove_pantry_item name db)) : gset str)
  = list_to_set (list_pantry db) ∖ {[trimmed_lower name]}.
Proof.
  apply set_eq. intros x.
  rewrite elem_of_difference, not_elem_of_singleton, !elem_of_pantry_set.
  cbn [remove_pantry_item pantry_items]. fold (trimmed_lower name).
  rewrite !list_elem_of_fmap. split.
  - intros (p & -> & [Hp Hin]%list_elem_of_filter). eauto.
  - intros [(p & -> & Hin) Hne]. exists p. split; [done|].
    by apply list_elem_of_filter.
Qed.

Lemma get_recipe_add_pantry_item name db rid :
  get_recipe (add_pantry_item name db) rid = get_recipe db rid.
Proof. unfold add_pantry_item. by repeat case_bool_decide. Qed.

Lemma compute_missing_add_pantry_item name db rid :
  name ≠ [] →
  compute_missing_ingredients (add_pantry_item name db) rid
  = filter (λ key, key ≠ trimmed_lower name)
      <$> compute_missing_ingredients db rid.
Proof.
  intros Hne. unfold compute_missing_ingredients.
  rewrite get_recipe_add_pantry_item.
  destruct (get_recipe db rid) as [r|]; [|by destruct (sqlite_integer rid)].
  cbn zeta. rewrite pantry_set_add, missing_ingredients_union by done.
  destruct (missing_ingredients _ _) as [out|]; [|done]. simpl. f_equal.
  apply list_filter_iff. intros key. by rewrite not_elem_of_singleton.
Qed.

Lemma compute_missing_keys db rid out key :
  compute_missing_ingredients db rid = Some out → key ∈ out →
  ∃ line, comparison_key line = key.
Proof.
  unfold compute_missing_ingredients.
  destruct (get_recipe db rid) as [r|].
  - intros Hout Hin.
    destruct (proj1 (missing_ingredients_elem_of
                       (str_splitlines (ingredients_text r))
                       (list_to_set (list_pantry db)) key))
      as ((line & _ & _ & Hk) & _); eauto.
  - destruct (sqlite_integer rid); [|done].
    intros [= <-] Hin. by apply elem_of_nil in Hin.
Qed.

(** X7: when a key reported for a recipe is added to the pantry, the
    list for that recipe loses that key and nothing else; names are
    compared after trimming and lower-casing. *)
Theorem add_pantry_item_removes_its_key :
  ∀ name db rid,
    name ≠ [] →
    compute_missing_ingredients (add_pantry_item name db) rid
    = filter (λ key, key ≠ str_lower (str_strip name))
        <$> compute_missing_ingredients db rid.
Proof. apply compute_missing_add_pantry_item. Qed.

Lemma add_pantry_item_removes_its_key_witness :
  py " Milk" ≠ []
  ∧ compute_missing_ingredients (add_pantry_item (py " Milk") init_db) 1
    = filter (λ key, key ≠ str_lower (str_strip (py " Milk")))
        <$> compute_missing_ingredients init_db 1.
Proof.
  assert (py " Milk" ≠ []) as Hne by discriminate.
  split; [exact Hne|].
  exact (add_pantry_item_removes_its_key (py " Milk") init_db 1 Hne).
Defined.

(** X8: a pantry name that, trimmed and lower-cased, still holds
    whitespace or punctuation, or is a number, changes no result: no
    comparison key can equal it. *)
Theorem pantry_entry_without_effect :
  ∀ name db rid,
    (∃ c, c ∈ str_lower (str_strip name)
          ∧ (Char.isspace c = true ∨ c ∈ punctuation))
    ∨ str_isdigit (str_lower (str_strip name)) = true →
    compute_missing_ingredients (add_pantry_item name db) rid
    = compute_missing_ingredients db rid.
Proof.
  intros name db rid Hbad. fold (trimmed_lower name) in Hbad.
  destruct (decide (name = [])) as [->|Hne]; [done|].
  rewrite compute_missing_add_pantry_item by done.
  destruct (compute_missing_ingredients db rid) as [out|] eqn:Hout; [|done].
  simpl. f_equal. apply filter_all, Forall_forall. intros key Hin ->.
  destruct (compute_missing_keys _ _ _ _ Hout Hin) as (line & Hline).
  rewrite <- Hline in Hbad. clear Hline Hin.
  destruct (comparison_key_cases line) as [Hnil|[[_ Hk] Hd]].
  - rewrite Hnil in Hbad. destruct Hbad as [(c & Hc & _)|Hd]; [|done].
    by apply elem_of_nil in Hc.
  - destruct Hbad as [(c & Hc & Hbad)|Hd']; [|congruence].
    rewrite Forall_forall in Hk. specialize (Hk c Hc).
    pose proof (tidy_shape c Hk) as Hp. destruct Hk as [Hs _].
    unfold solid in Hs. destruct Hbad as [Hb|Hb]; [congruence|].
    by apply bool_decide_eq_false in Hp.
Qed.

Lemma pantry_entry_without_effect_witness :
  ((∃ c, c ∈ str_lower (str_strip (py "Olive Oil"))
         ∧ (Char.isspace c = true ∨ c ∈ punctuation))
   ∨ str_isdigit (str_lower (str_strip (py "Olive Oil"))) = true)
  ∧ compute_missing_ingredients (add_pantry_item (py "Olive Oil") init_db) 2
    = compute_missing_ingredients init_db 2.
Proof.
  assert ((∃ c, c ∈ str_lower (str_strip (py "Olive Oil"))
                ∧ (Char.isspace c = true ∨ c ∈ punctuation))
          ∨ str_isdigit (str_lower (str_strip (py "Olive Oil"))) = true)
    as Hbad.
  { left. exists (Latin1 " "). split; [|by left]. vm_compute.
    do 5 apply list_elem_of_further. apply list_elem_of_here. }
  split; [exact Hbad|].
  exact (pantry_entry_without_effect (py "Olive Oil") init_db 2 Hbad).
Defined.

(** X9: removing a name that is in the pantry can bring back that one
    key and no other. *)
Theorem remove_pantry_item_restores_its_key :
  ∀ name db rid,
    str_lower (str_strip name) ∈ pantry_name <$> pantry_items db →
    compute_missing_ingredients db rid
    = filter (λ key, key ≠ str_lower (str_strip name))
        <$> compute_missing_ingredients (remove_pantry_item name db) rid.
Proof.
  intros name db rid Hin. fold (trimmed_lower name) in *.
  unfold compute_missing_ingredients. cbn [remove_pantry_item recipes get_recipe].
  change (get_recipe (remove_pantry_item name db) rid) with (get_recipe db rid).
  destruct (get_recipe db rid) as [r|]; [|by destruct (sqlite_integer rid)].
  cbn zeta. rewrite pantry_set_remove.
  assert ((list_to_set (list_pantry db) : gset str)
          = list_to_set (list_pantry db) ∖ {[trimmed_lower name]}
            ∪ {[trimmed_lower name]}) as Hset.
  { apply set_eq. intros x.
    rewrite elem_of_union, elem_of_difference, elem_of_singleton.
    destruct (decide (x = trimmed_lower name)) as [->|]; [|tauto].
    split; [auto|]. intros _. by apply elem_of_pantry_set. }
  rewrite Hset at 1. rewrite missing_ingredients_union.
  destruct (missing_ingredients _ _) as [out|]; [|done]. simpl. f_equal.
  apply list_filter_iff. intros key. by rewrite not_elem_of_singleton.
Qed.

Lemma remove_pantry_item_restores_its_key_witness :
  (str_lower (str_strip (py "EGGS "))
   ∈ pantry_name <$> pantry_items (add_pantry_item (py "eggs") init_db))
  ∧ compute_missing_ingredients (add_pantry_item (py "eggs") init_db) 3
    = filter (λ key, key ≠ str_lower (str_strip (py "EGGS ")))
        <$> compute_missing_ingredients
              (remove_pantry_item (py "EGGS ")
                 (add_pantry_item (py "eggs") init_db)) 3.
Proof.
  assert (str_lower (str_strip (py "EGGS "))
          ∈ pantry_name <$> pantry_items (add_pantry_item (py "eggs") init_db))
    as Hin by (vm_compute; apply list_elem_of_here).
  split; [exact Hin|].
  exact (remove_pantry_item_restores_its_key (py "EGGS ") _ 3 Hin).
Defined.

(** ** The pantry table, further *)

Lemma lstrip_blank s : Forall blank s → str_lstrip s = [].
Proof. induction 1 as [|c s Hc _ IH]; [done|]. simpl. by rewrite Hc. Qed.

Lemma strip_blank s : Forall blank s → str_strip s = [].
Proof. intros Hs. unfold str_strip. by rewrite lstrip_blank. Qed.

(** X10: a name of whitespace only passes the guard against the empty
    name and is stored as the empty name, in the pantry and in the
    grocery list alike; only the empty name itself is ignored. *)
Theorem whitespace_name_stored_empty :
  ∀ name db,
    name ≠ [] → Forall (λ c, Char.isspace c = true) name →
    [] ∈ pantry_name <$> pantry_items (add_pantry_item name db)
    ∧ grocery_items (add_grocery_item name db)
      = grocery_items db ++ [GroceryItem (grocery_seq db + 1) [] 0]
    ∧ add_pantry_item [] db = db
    ∧ add_grocery_item [] db = db.
Proof.
  intros name db Hne Hblank. split_and!; [| |done..].
  - assert (trimmed_lower name = []) as Hempty
      by (unfold trimmed_lower; by rewrite strip_blank).
    rewrite <- Hempty at 1. by apply add_pantry_item_stored.
  - rewrite add_grocery_item_items by done.
    by rewrite (strip_blank name Hblank).
Qed.

Lemma whitespace_name_stored_empty_witness :
  py "  " ≠ [] ∧ Forall (λ c, Char.isspace c = true) (py "  ")
  ∧ [] ∈ pantry_name <$> pantry_items (add_pantry_item (py "  ") init_db).
Proof.
  assert (py "  " ≠ []) as Hne by discriminate.
  assert (Forall (λ c, Char.isspace c = true) (py "  ")) as Hb
    by (repeat constructor).
  split; [exact Hne|]. split; [exact Hb|].
  exact (proj1 (whitespace_name_stored_empty (py "  ") init_db Hne Hb)).
Defined.

(** X11: removing a name right after adding it, in whatever case and
    with whatever margin, leaves the rows that removing alone would
    leave; the name is gone, and the id counter is not taken back. *)
Theorem remove_after_add_pantry_item :
  ∀ n1 n2 db,
    str_lower (str_strip n1) = str_lower (str_strip n2) →
    pantry_items (remove_pantry_item n2 (add_pantry_item n1 db))
    = pantry_items (remove_pantry_item n2 db)
    ∧ (str_lower (str_strip n1)
       ∉ pantry_name
           <$> pantry_items (remove_pantry_item n2 (add_pantry_item n1 db)))
    ∧ (pantry_seq db ≤ pantry_seq (remove_pantry_item n2 (add_pantry_item n1 db)))%Z.
Proof.
  intros n1 n2 db Heq. split_and!.
  - unfold add_pantry_item. repeat case_bool_decide; try done.
    cbn [remove_pantry_item pantry_items]. rewrite filter_app.
    rewrite (filter_cons_False _ (PantryItem _ _)), filter_nil, app_nil_r; [done|].
    simpl. by intros []. 
  - rewrite Heq. cbn [remove_pantry_item pantry_items].
    intros (p & Hp & [Hne _]%list_elem_of_filter)%list_elem_of_fmap.
    by destruct Hne.
  - unfold add_pantry_item. repeat case_bool_decide; simpl; lia.
Qed.

Lemma remove_after_add_pantry_item_witness :
  str_lower (str_strip (py "Butter ")) = str_lower (str_strip (py " butter"))
  ∧ pantry_items
      (remove_pantry_item (py " butter") (add_pantry_item (py "Butter ") init_db))
    = pantry_items (remove_pantry_item (py " butter") init_db).
Proof.
  assert (str_lower (str_strip (py "Butter "))
          = str_lower (str_strip (py " butter"))) as Heq
    by (vm_compute; reflexivity).
  split; [exact Heq|].
  exact (proj1 (remove_after_add_pantry_item _ _ init_db Heq)).
Defined.

Lemma ord_inj x y : Char.ord x = Char.ord y → x = y.
Proof.
  destruct x as [a|], y as [b|]; simpl; intros Heq; [|exfalso..|done].
  - by rewrite <- (ascii_N_embedding a), <- (ascii_N_embedding b), Heq.
  - pose proof (N_ascii_bounded a). lia.
  - pose proof (N_ascii_bounded b). lia.
Qed.

Lemma str_le_total : Total str_le.
Proof.
  unfold str_le. intros a. induction a as [|x a IH]; intros [|y b]; simpl; auto.
  destruct (decide (x = y)) as [->|Hne].
  - rewrite decide_True by done. apply IH.
  - rewrite decide_False by done.
    destruct (N.ltb_spec (Char.ord x) (Char.ord y)); [auto|].
    right. apply N.ltb_lt.
    assert (Char.ord x ≠ Char.ord y); [|lia].
    intros Heq. by apply Hne, ord_inj.
Qed.

Lemma str_le_trans : Transitive str_le.
Proof.
  unfold str_le. intros a.
  induction a as [|x a IH]; intros [|y b] [|z c]; simpl; try done.
  destruct (decide (x = y)) as [->|Hxy].
  - destruct (decide (y = z)) as [->|Hyz]; [apply IH|done].
  - intros Hlt%N.ltb_lt. destruct (decide (y = z)) as [->|Hyz].
    + intros _. rewrite decide_False by done. by apply N.ltb_lt.
    + intros Hlt'%N.ltb_lt. rewrite decide_False.
      * apply N.ltb_lt. lia.
      * intros ->. lia.
Qed.

(** X12: [list_pantry] returns the stored names in ascending order of
    their code points, each stored name once. *)
Theorem list_pantry_sorted_once :
  ∀ (ops : list op) (rs : list recipe),
    ∃ db,
      run ops (fresh rs) = Some db
      ∧ list_pantry db ≡ₚ pantry_name <$> pantry_items db
      ∧ NoDup (list_pantry db)
      ∧ StronglySorted str_le (list_pantry db).
Proof.
  intros ops rs. destruct (fresh_ok rs) as [Hp0 Hg0].
  destruct (run_ok ops (fresh rs) Hp0 Hg0) as (db & Hrun & [Hnd _] & _).
  exists db. split; [done|]. unfold list_pantry.
  assert (merge_sort (λ a b, str_leb a b) (pantry_name <$> pantry_items db)
          ≡ₚ pantry_name <$> pantry_items db) as Hperm
    by apply merge_sort_Permutation.
  split_and!; [done|by rewrite Hperm|].
  assert (Total (λ a b : str, Is_true (str_leb a b))) as Htot.
  { intros a b. destruct (str_le_total a b) as [H|H];
      [left|right]; by apply Is_true_true. }
  assert (Transitive (λ a b : str, Is_true (str_leb a b))) as Htrans.
  { intros a b c Hab%Is_true_true Hbc%Is_true_true.
    apply Is_true_true. by apply (str_le_trans a b c). }
  pose proof (StronglySorted_merge_sort (λ a b : str, Is_true (str_leb a b))
                (pantry_name <$> pantry_items db)) as Hs.
  clear Hperm. induction Hs as [|x l _ IH Hx]; constructor; [done|].
  eapply Forall_impl; [exact Hx|]. intros y. apply Is_true_true.
Qed.

(** ** The grocery table, further *)

Lemma StronglySorted_fmap_filter {A B} (R : relation B) (f : A → B)
    (P : A → Prop) `{!∀ x, Decision (P x)} (l : list A) :
  StronglySorted R (f <$> l) → StronglySorted R (f <$> filter P l).
Proof.
  induction l as [|x l IH]; [done|].
  rewrite fmap_cons. intros [Hx Hl]%StronglySorted_cons.
  rewrite filter_cons. case_decide; [|by apply IH].
  rewrite fmap_cons. apply StronglySorted_cons. split; [|by apply IH].
  rewrite Forall_fmap in Hx. apply Forall_fmap.
  by apply Forall_filter_keep.
Qed.

Lemma with_grocery_same db :
  with_grocery db (grocery_items db) (grocery_seq db) = db.
Proof. by destruct db. Qed.

Lemma add_grocery_item_rows_ok name db :
  grocery_rows_ok db → grocery_rows_ok (add_grocery_item name db).
Proof.
  intros (Hseq & Hs & Hall). unfold add_grocery_item.
  case_bool_decide; [done|].
  split_and!; cbn [with_grocery grocery_items grocery_seq].
  - lia.
  - rewrite fmap_app. apply StronglySorted_app. split_and!; [|done|].
    + intros x y (g & -> & Hg)%list_elem_of_fmap Hy.
      apply list_elem_of_singleton in Hy as ->. simpl.
      rewrite Forall_forall in Hall. destruct (Hall g Hg) as [? _]. lia.
    + repeat constructor.
  - apply Forall_app. split.
    + eapply Forall_impl; [exact Hall|]. intros g [? ?]. split; [lia|done].
    + constructor; [|constructor]. simpl. split; [lia|by left].
Qed.

Lemma remove_grocery_item_rows_ok item_id db :
  grocery_rows_ok db → grocery_rows_ok (remove_grocery_item item_id db).
Proof.
  intros (Hseq & Hs & Hall).
  split_and!; cbn [remove_grocery_item with_grocery grocery_items grocery_seq].
  - done.
  - by apply StronglySorted_fmap_filter.
  - by apply Forall_filter_keep.
Qed.

Lemma set_grocery_checked_ids item_id checked db :
  grocery_id <$> grocery_items (set_grocery_checked item_id checked db)
  = grocery_id <$> grocery_items db.
Proof.
  cbn [set_grocery_checked with_grocery grocery_items].
  rewrite <- list_fmap_compose. apply list_fmap_ext.
  intros _ g _. simpl. by case_decide.
Qed.

Lemma set_grocery_checked_names item_id checked db :
  grocery_name <$> grocery_items (set_grocery_checked item_id checked db)
  = grocery_name <$> grocery_items db.
Proof.
  cbn [set_grocery_checked with_grocery grocery_items].
  rewrite <- list_fmap_compose. apply list_fmap_ext.
  intros _ g _. simpl. by case_decide.
Qed.

Lemma set_grocery_checked_rows_ok item_id checked db :
  grocery_rows_ok db → grocery_rows_ok (set_grocery_checked item_id checked db).
Proof.
  intros (Hseq & Hs & Hall). split_and!.
  - done.
  - by rewrite set_grocery_checked_ids.
  - cbn [set_grocery_checked with_grocery grocery_items grocery_seq].
    apply Forall_fmap. eapply Forall_impl; [exact Hall|].
    intros g [Hid Hc]. simpl. case_decide; [|done]. simpl.
    split; [done|]. destruct checked; auto.
Qed.

Lemma add_all_rows_ok (missing : list str) db :
  grocery_rows_ok db →
  grocery_rows_ok (foldl (λ d m, add_grocery_item m d) db missing).
Proof.
  revert db. induction missing as [|m rest IH]; intros db Hok; [done|].
  simpl. by apply IH, add_grocery_item_rows_ok.
Qed.

Lemma step_rows_ok o db db' :
  step o db = Some db' → grocery_rows_ok db → grocery_rows_ok db'.
Proof.
  intros Hstep Hok. destruct o; simpl in Hstep; simplify_eq.
  - unfold add_pantry_item. by repeat case_bool_decide.
  - done.
  - by apply add_grocery_item_rows_ok.
  - by apply remove_grocery_item_rows_ok.
  - destruct Hok as (Hseq & _ & _). split_and!; [done|constructor..].
  - by apply set_grocery_checked_rows_ok.
  - unfold add_missing_to_grocery in Hstep.
    destruct (compute_missing_ingredients db rid) as [m|]; simplify_eq/=;
      [|done].
    by apply add_all_rows_ok.
Qed.

Lemma run_rows_ok ops db db' :
  run ops db = Some db' → grocery_rows_ok db → grocery_rows_ok db'.
Proof.
  revert db. induction ops as [|o rest IH]; intros db Hrun Hok.
  - by simplify_eq/=.
  - simpl in Hrun. destruct (step o db) as [db1|] eqn:Hstep; [|done].
    simpl in Hrun. eapply IH; [done|]. by eapply step_rows_ok.
Qed.

Lemma fresh_rows_ok rs : grocery_rows_ok (fresh rs).
Proof. split_and!; [done|constructor..]. Qed.

Lemma StronglySorted_lt_NoDup (l : list Z) : StronglySorted Z.lt l → NoDup l.
Proof.
  induction 1 as [|x l _ IH Hx]; constructor; [|done].
  rewrite Forall_forall in Hx. intros Hin. specialize (Hx x Hin). lia.
Qed.

(** X13: after any sequence of operations on a new data base the ids of
    the grocery rows are positive, pairwise different, ascending along
    the table and not above the counter, so the id of the next row is
    new, whatever was removed or cleared before; every flag is 0 or 1. *)
Theorem grocery_ids_never_reused :
  ∀ (ops : list op) (rs : list recipe),
    ∃ db,
      run ops (fresh rs) = Some db
      ∧ NoDup (grocery_id <$> grocery_items db)
      ∧ StronglySorted Z.lt (grocery_id <$> grocery_items db)
      ∧ (∀ g, g ∈ grocery_items db →
              (0 < grocery_id g ≤ grocery_seq db)%Z
              ∧ (is_checked g = 0%Z ∨ is_checked g = 1%Z))
      ∧ (∀ name, name ≠ [] →
           ∃ g, grocery_items (add_grocery_item name db)
                = grocery_items db ++ [g]
                ∧ (grocery_id g ∉ grocery_id <$> grocery_items db)
                ∧ is_checked g = 0%Z).
Proof.
  intros ops rs. destruct (fresh_ok rs) as [Hp0 Hg0].
  destruct (run_ok ops (fresh rs) Hp0 Hg0) as (db & Hrun & _ & _).
  destruct (run_rows_ok _ _ _ Hrun (fresh_rows_ok rs)) as (Hseq & Hs & Hall).
  exists db. split_and!; [done|by apply StronglySorted_lt_NoDup|done| |].
  - by apply Forall_forall.
  - intros name Hne. eexists. split; [by apply add_grocery_item_items|].
    split; [|done]. simpl.
    intros (g & Hid & Hg)%list_elem_of_fmap.
    rewrite Forall_forall in Hall. destruct (Hall g Hg) as [? _]. lia.
Qed.

Lemma grocery_ids_never_reused_witness :
  ∃ db,
    run [AddGroceryItem (py "Salt"); ClearGrocery] (fresh []) = Some db
    ∧ ∃ g, grocery_items (add_grocery_item (py "Rice") db)
           = grocery_items db ++ [g]
           ∧ (grocery_id g ∉ grocery_id <$> grocery_items db).
Proof.
  destruct (grocery_ids_never_reused [AddGroceryItem (py "Salt"); ClearGrocery] [])
    as (db & Hrun & _ & _ & _ & Hnew).
  exists db. split; [exact Hrun|].
  destruct (Hnew (py "Rice") ltac:(discriminate)) as (g & Hg & Hid & _).
  exists g. by split.
Defined.

(** X14: [set_grocery_checked] keeps the ids, the names and the order of
    the rows, writes the flag of the rows with the given id and of no
    other, the last call wins, and an id that is not in the table
    changes nothing. *)
Theorem set_grocery_checked_one_flag :
  ∀ item_id checked db,
    let db' := set_grocery_checked item_id checked db in
    grocery_id <$> grocery_items db' = grocery_id <$> grocery_items db
    ∧ grocery_name <$> grocery_items db' = grocery_name <$> grocery_items db
    ∧ (∀ i g, grocery_items db !! i = Some g →
              grocery_items db' !! i
              = Some (if decide (grocery_id g = item_id)
                      then GroceryItem (grocery_id g) (grocery_name g)
                             (if checked then 1 else 0)
                      else g))
    ∧ (∀ again, set_grocery_checked item_id again db'
                = set_grocery_checked item_id again db)
    ∧ (item_id ∉ grocery_id <$> grocery_items db → db' = db).
Proof.
  intros item_id checked db db'. subst db'. split_and!.
  - apply set_grocery_checked_ids.
  - apply set_grocery_checked_names.
  - intros i g Hg. cbn [set_grocery_checked with_grocery grocery_items].
    by rewrite list_lookup_fmap, Hg.
  - intros again. unfold set_grocery_checked at 1 3.
    cbn [set_grocery_checked with_grocery grocery_items grocery_seq
         recipes pantry_items pantry_seq].
    f_equal. rewrite <- list_fmap_compose. apply list_fmap_ext.
    intros _ g _. simpl.
    destruct (decide (grocery_id g = item_id)) as [Hid|Hid]; simpl.
    + by rewrite decide_True.
    + by rewrite decide_False.
  - intros Hnot. rewrite <- (with_grocery_same db) at 2.
    unfold set_grocery_checked. f_equal.
    rewrite <- (list_fmap_id (grocery_items db)) at 2.
    apply list_fmap_ext. intros i g Hg. simpl.
    case_decide as Hid; [|done]. destruct Hnot.
    apply list_elem_of_fmap. exists g. split; [done|].
    by eapply list_elem_of_lookup_2.
Qed.

(** X15: [remove_grocery_item] leaves no row with the given id and keeps
    every other row in place; after any sequence of operations on a new
    data base it removes exactly one row when the id is in the table,
    and nothing when it is not. *)
Theorem remove_grocery_item_one_row :
  ∀ (ops : list op) (rs : list recipe) (item_id : Z),
    ∃ db,
      run ops (fresh rs) = Some db
      ∧ (item_id ∉ grocery_id <$> grocery_items (remove_grocery_item item_id db))
      ∧ (∀ g, g ∈ grocery_items db → grocery_id g ≠ item_id →
              g ∈ grocery_items (remove_grocery_item item_id db))
      ∧ (item_id ∈ grocery_id <$> grocery_items db →
         S (length (grocery_items (remove_grocery_item item_id db)))
         = length (grocery_items db))
      ∧ (item_id ∉ grocery_id <$> grocery_items db →
         remove_grocery_item item_id db = db).
Proof.
  intros ops rs item_id. destruct (fresh_ok rs) as [Hp0 Hg0].
  destruct (run_ok ops (fresh rs) Hp0 Hg0) as (db & Hrun & _ & _).
  destruct (run_rows_ok _ _ _ Hrun (fresh_rows_ok rs)) as (_ & Hs & _).
  apply StronglySorted_lt_NoDup in Hs.
  exists db. cbn [remove_grocery_item with_grocery grocery_items].
  split_and!; [done| | | |].
  - intros (g & Hid & [Hne _]%list_elem_of_filter)%list_elem_of_fmap.
    by destruct Hne.
  - intros g Hg Hne. by apply list_elem_of_filter.
  - intros Hin.
    pose proof (count_unique grocery_id item_id (grocery_items db) Hs Hin)
      as Hone.
    pose proof (filter_app_complement (λ g, grocery_id g = item_id)
                  (grocery_items db)) as Hperm.
    apply Permutation_length in Hperm. rewrite length_app, Hone in Hperm.
    simpl in Hperm. done.
  - intros Hnot. rewrite <- (with_grocery_same db) at 2.
    unfold remove_grocery_item. f_equal.
    apply filter_all, Forall_forall. intros g Hg Hid. destruct Hnot.
    apply list_elem_of_fmap. eauto.
Qed.

Lemma remove_grocery_item_one_row_witness :
  ∃ db,
    run [AddGroceryItem (py "Salt"); AddGroceryItem (py "Rice")] (fresh [])
    = Some db
    ∧ S (length (grocery_items (remove_grocery_item 1 db)))
      = length (grocery_items db).
Proof.
  destruct (remove_grocery_item_one_row
              [AddGroceryItem (py "Salt"); AddGroceryItem (py "Rice")] [] 1)
    as (db & Hrun & _ & _ & Hone & _).
  exists db. split; [exact Hrun|]. apply Hone.
  vm_compute in Hrun. injection Hrun as <-. vm_compute.
  apply list_elem_of_here.
Defined.

(** ** Adding the missing keys to the grocery list *)

Lemma add_grocery_item_recipes name db :
  recipes (add_grocery_item name db) = recipes db.
Proof. unfold add_grocery_item. by case_bool_decide. Qed.

Lemma add_all_recipes (missing : list str) db :
  recipes (foldl (λ d m, add_grocery_item m d) db missing) = recipes db.
Proof.
  revert db. induction missing as [|m rest IH]; intros db; [done|].
  simpl. by rewrite IH, add_grocery_item_recipes.
Qed.

Lemma add_all_items (missing : list str) db :
  Forall (λ m, m ≠ [] ∧ trimmed_lower m = m) missing →
  grocery_items (foldl (λ d m, add_grocery_item m d) db missing)
  = grocery_items db
      ++ imap (λ i key, GroceryItem (grocery_seq db + 1 + Z.of_nat i) key 0)
           missing.
Proof.
  intros Hall. revert db.
  induction Hall as [|m rest [Hne Hm] _ IH]; intros db.
  - simpl. by rewrite app_nil_r.
  - cbn [foldl]. rewrite IH, add_grocery_item_items by done.
    unfold add_grocery_item. rewrite bool_decide_eq_false_2 by done.
    cbn [with_grocery grocery_seq]. fold (trimmed_lower m). rewrite Hm.
    rewrite <- app_assoc. f_equal. cbn [imap app]. f_equal.
    + f_equal. lia.
    + apply imap_ext. intros i key _. simpl. f_equal. lia.
Qed.

Lemma compute_missing_ingredients_ext db db' rid :
  recipes db' = recipes db → pantry_items db' = pantry_items db →
  compute_missing_ingredients db' rid = compute_missing_ingredients db rid.
Proof.
  intros Hr Hp.
  unfold compute_missing_ingredients, get_recipe, list_pantry.
  by rewrite Hr, Hp.
Qed.

Lemma compute_missing_ingredients_clean db rid out :
  compute_missing_ingredients db rid = Some out →
  Forall (λ m, m ≠ [] ∧ trimmed_lower m = m) out.
Proof.
  intros Hout. apply Forall_forall. intros key Hin. split.
  - pose proof (compute_missing_ingredients_nonempty _ _ _ Hout) as Hne.
    rewrite Forall_forall in Hne. by apply Hne.
  - destruct (compute_missing_keys _ _ _ _ Hout Hin) as (line & <-).
    apply comparison_key_trimmed.
Qed.

(** X16: [add_missing_to_grocery] returns the keys that
    [compute_missing_ingredients] returns and raises when it raises; it
    touches neither the recipes nor the pantry; it appends one unchecked
    row per returned key, in order and with consecutive new ids, without
    looking at what the grocery list already holds: a second call
    returns the same keys and appends them again. *)
Theorem add_missing_to_grocery_appends_again :
  ∀ rid db,
    (∀ missing,
       compute_missing_ingredients db rid = Some missing →
       ∃ db1 db2,
         add_missing_to_grocery rid db = Some (missing, db1)
         ∧ recipes db1 = recipes db
         ∧ pantry_items db1 = pantry_items db
         ∧ grocery_items db1
           = grocery_items db
               ++ imap (λ i key,
                          GroceryItem (grocery_seq db + 1 + Z.of_nat i) key 0)
                    missing
         ∧ add_missing_to_grocery rid db1 = Some (missing, db2)
         ∧ grocery_name <$> grocery_items db2
           = (grocery_name <$> grocery_items db) ++ missing ++ missing)
    ∧ (compute_missing_ingredients db rid = None →
       add_missing_to_grocery rid db = None).
Proof.
  intros rid db. split; [|by unfold add_missing_to_grocery; intros ->].
  intros m Hm. unfold add_missing_to_grocery.
  pose proof (compute_missing_ingredients_clean _ _ _ Hm) as Hclean.
  assert (Forall (λ k : str, k ≠ []) m) as Hne
    by (eapply Forall_impl; [exact Hclean|]; by intros k [? _]).
  pose proof (compute_missing_ingredients_trimmed _ _ _ Hm) as Htrim.
  set (db1 := foldl (λ d k, add_grocery_item k d) db m).
  assert (compute_missing_ingredients db1 rid = Some m) as Hm1.
  { rewrite <- Hm. apply compute_missing_ingredients_ext.
    - apply add_all_recipes.
    - apply add_all_pantry. }
  exists db1, (foldl (λ d k, add_grocery_item k d) db1 m).
  rewrite Hm, Hm1. split_and!; [done| | | |done|].
  - apply add_all_recipes.
  - apply add_all_pantry.
  - by apply add_all_items.
  - rewrite add_all_names by done. subst db1.
    rewrite add_all_names by done. by rewrite Htrim, <- app_assoc.
Qed.

Lemma add_missing_to_grocery_appends_again_witness :
  compute_missing_ingredients init_db 1
  = Some [py "flour"; py "eggs"; py "milk"; py "water"; py "salt"; py "butter"]
  ∧ ∃ db1 db2,
      add_missing_to_grocery 1 init_db
      = Some ([py "flour"; py "eggs"; py "milk"; py "water"; py "salt";
               py "butter"], db1)
      ∧ add_missing_to_grocery 1 db1
        = Some ([py "flour"; py "eggs"; py "milk"; py "water"; py "salt";
                 py "butter"], db2).
Proof.
  assert (compute_missing_ingredients init_db 1
          = Some [py "flour"; py "eggs"; py "milk"; py "water"; py "salt";
                  py "butter"]) as Hm by (vm_compute; reflexivity).
  split; [exact Hm|].
  destruct (proj1 (add_missing_to_grocery_appends_again 1 init_db) _ Hm)
    as (db1 & db2 & H1 & _ & _ & _ & H2 & _).
  exists db1, db2. by split.
Defined.

(** ** Lines of a recipe *)

Lemma splitlines_go_nobreak cur w s :
  Forall (λ c, Char.islinebreak c = false) w →
  splitlines_go cur (w ++ s) = splitlines_go (cur ++ w) s.
Proof.
  intros Hw. revert cur.
  induction Hw as [|c w Hc _ IH]; intros cur; simpl.
  - by rewrite app_nil_r.
  - rewrite Hc, IH. by rewrite <- app_assoc.
Qed.

Lemma splitlines_join_cons (l : str) (ls : list str) :
  Forall (λ c, Char.islinebreak c = false) l →
  str_splitlines (str_join LF (l :: ls))
  = match ls with
    | [] => flush l
    | _ :: _ => l :: str_splitlines (str_join LF ls)
    end.
Proof.
  intros Hl. unfold str_splitlines. destruct ls as [|l' ls].
  - simpl. rewrite <- (app_nil_r l) at 1.
    by rewrite splitlines_go_nobreak.
  - rewrite join_cons_cons, splitlines_go_nobreak by done. reflexivity.
Qed.

Lemma splitlines_join (lines : list str) :
  Forall (Forall (λ c, Char.islinebreak c = false)) lines →
  last lines ≠ Some [] →
  str_splitlines (str_join LF lines) = lines.
Proof.
  induction 1 as [|l ls Hl Hls IH]; [done|]. intros Hlast.
  rewrite splitlines_join_cons by done. destruct ls as [|l' ls].
  - destruct l; [done|reflexivity].
  - f_equal. apply IH. by rewrite last_cons_cons in Hlast.
Qed.

Lemma splitlines_join_nonblank (lines : list str) :
  Forall (Forall (λ c, Char.islinebreak c = false)) lines →
  filter nonblank (str_splitlines (str_join LF lines)) = filter nonblank lines.
Proof.
  induction 1 as [|l ls Hl Hls IH]; [done|].
  rewrite splitlines_join_cons by done. destruct ls as [|l' ls].
  - destruct l; [|reflexivity].
    simpl. by rewrite filter_cons_False by (by intros []).
  - by rewrite !filter_cons, IH.
Qed.

(** X17: for lines that hold no line boundary, joining them with line
    feeds, as the sample recipes do, and splitting the text again gives
    the lines back (but for a last empty line), so the matcher on the
    stored text is the matcher on the lines. *)
Theorem splitlines_of_joined_lines :
  ∀ (lines : list str),
    Forall (Forall (λ c, Char.islinebreak c = false)) lines →
    (last lines ≠ Some [] → str_splitlines (str_join LF lines) = lines)
    ∧ ∀ pantry : gset str,
        missing_ingredients (str_splitlines (str_join LF lines)) pantry
        = missing_ingredients lines pantry.
Proof.
  intros lines Hlines. split; [by apply splitlines_join|].
  intros pantry. rewrite !missing_ingredients_spec.
  by rewrite splitlines_join_nonblank.
Qed.

Lemma splitlines_of_joined_lines_witness :
  Forall (Forall (λ c, Char.islinebreak c = false)) [py "2 eggs"; py "Salt"]
  ∧ str_splitlines (str_join LF [py "2 eggs"; py "Salt"])
    = [py "2 eggs"; py "Salt"].
Proof.
  assert (Forall (Forall (λ c, Char.islinebreak c = false))
            [py "2 eggs"; py "Salt"]) as Hl
    by (repeat constructor).
  split; [exact Hl|].
  apply (proj1 (splitlines_of_joined_lines _ Hl)). discriminate.
Defined.

(** ** Recipes and their notes *)





(** ** Cooking mode *)

Lemma py_getitem_in_range {A} (l : list A) (i : Z) :
  (0 ≤ i < Z.of_nat (length l))%Z →
  ∃ x, l !! Z.to_nat i = Some x ∧ py_getitem l i = Some x.
Proof.
  intros Hi. unfold py_getitem. rewrite bool_decide_eq_true_2 by done.
  destruct (lookup_lt_is_Some_2 l (Z.to_nat i)) as [x Hx]; [lia|]. eauto.
Qed.

Lemma update_cooking_view_shown st :
  cook_steps st ≠ [] →
  (0 ≤ cook_index st < Z.of_nat (length (cook_steps st)))%Z →
  ∃ st', update_cooking_view st = Some st' ∧ shown st'
         ∧ cook_steps st' = cook_steps st ∧ cook_index st' = cook_index st.
Proof.
  intros Hne Hi. unfold update_cooking_view.
  rewrite bool_decide_eq_true_2 by done.
  destruct (py_getitem_in_range _ _ Hi) as (x & Hx & ->). simpl.
  eexists. split; [reflexivity|]. split; [|by split].
  unfold shown. cbn [cook_steps cook_index step_label progress_range
                     progress_value].
  split_and!; [done|lia|lia|done| |].
  - f_equal. lia.
  - lia.
Qed.

Lemma press_shown b st :
  shown st →
  ∃ st', press b st = Some st' ∧ shown st'
         ∧ cook_steps st' = cook_steps st
         ∧ cook_index st'
           = match b with
             | Prev => Z.max 0 (cook_index st - 1)
             | Next =>
                 Z.min (Z.of_nat (length (cook_steps st)) - 1) (cook_index st + 1)
             end%Z.
Proof.
  intros (Hne & Hi & _). destruct b; simpl.
  - unfold prev_step. rewrite bool_decide_eq_false_2 by done.
    apply (update_cooking_view_shown (set_cook_index _ st)); simpl; [done|lia].
  - unfold next_step. rewrite bool_decide_eq_false_2 by done.
    apply (update_cooking_view_shown (set_cook_index _ st)); simpl; [done|lia].
Qed.

Lemma press_all_shown bs st :
  shown st →
  ∃ st', press_all bs st = Some st' ∧ shown st'
         ∧ cook_steps st' = cook_steps st.
Proof.
  revert st. induction bs as [|b bs IH]; intros st Hst; [by exists st|].
  destruct (press_shown b st Hst) as (st1 & Hp & Hs1 & Hsteps & _).
  destruct (IH st1 Hs1) as (st' & Hall & Hs' & Hsteps').
  exists st'. simpl. rewrite Hp. simpl. split_and!; [done..|congruence].
Qed.

Lemma press_all_no_steps bs st :
  cook_steps st = [] → press_all bs st = Some st.
Proof.
  intros Hnil. induction bs as [|b bs IH]; [done|].
  simpl. assert (press b st = Some st) as ->; [|done].
  destruct b; simpl; unfold prev_step, next_step;
    by rewrite bool_decide_eq_true_2.
Qed.

Lemma enter_cooking_mode_cases recipe st0 :
  ∃ st1,
    enter_cooking_mode recipe st0 = Some st1
    ∧ Forall (λ s, s ≠ [] ∧ str_strip s = s) (cook_steps st1)
    ∧ cook_index st1 = 0%Z
    ∧ (cook_steps st1 = [] ∨ shown st1).
Proof.
  destruct recipe as [steps_text|]; simpl.
  - set (steps := str_strip <$> filter _ _).
    assert (Forall (λ s, s ≠ [] ∧ str_strip s = s) steps) as Hsteps.
    { subst steps. apply Forall_fmap, Forall_forall.
      intros l [Hl _]%list_elem_of_filter. simpl. split; [done|].
      apply strip_idem. }
    destruct steps as [|s steps'] eqn:E.
    + eexists. split; [reflexivity|]. simpl. auto.
    + destruct (update_cooking_view_shown
                  (Cooking (s :: steps') 0 (progress_range st0)
                     (progress_value st0) (step_label st0)))
        as (st1 & Hu & Hs & Hst & Hidx); [done|simpl; lia|].
      exists st1. rewrite Hst, Hidx. simpl. auto.
  - eexists. split; [reflexivity|]. simpl. auto.
Qed.

(** X20: in cooking mode no handler indexes the steps out of range:
    entering the mode and pressing the two buttons in any order always
    returns; the steps are the stripped non-blank lines of the recipe
    and do not change; while there are steps the index stays within
    them, the label shows the step at the index and the progress bar
    shows index + 1 out of the number of steps; without steps the
    buttons do nothing. *)
Theorem cooking_mode_index_in_range :
  ∀ recipe st0 (buttons : list cook_button),
    ∃ st1 st,
      enter_cooking_mode recipe st0 = Some st1
      ∧ press_all buttons st1 = Some st
      ∧ cook_steps st = cook_steps st1
      ∧ Forall (λ s, s ≠ [] ∧ str_strip s = s) (cook_steps st)
      ∧ (cook_steps st = [] → st = st1 ∧ cook_index st = 0%Z)
      ∧ (cook_steps st ≠ [] →
         (0 ≤ cook_index st < Z.of_nat (length (cook_steps st)))%Z
         ∧ cook_steps st !! Z.to_nat (cook_index st) = Some (step_label st)
         ∧ progress_range st = (0%Z, Z.of_nat (length (cook_steps st)))
         ∧ progress_value st = (cook_index st + 1)%Z).
Proof.
  intros recipe st0 buttons.
  destruct (enter_cooking_mode_cases recipe st0)
    as (st1 & Hen & Hsteps & Hidx & [Hnil|Hshown]).
  - exists st1, st1. rewrite press_all_no_steps by done.
    split_and!; [done..|]. by intros [].
  - destruct (press_all_shown buttons st1 Hshown) as (st & Hp & Hs & Heq).
    exists st1, st. rewrite Heq. split_and!; [done..| |].
    + intros Hnil. by destruct Hshown as [Hne _].
    + intros _. rewrite <- Heq. by destruct Hs as (_ & ? & ? & ? & ?).
Qed.

Lemma press_next_times n st :
  shown st →
  ∃ st', press_all (replicate n Next) st = Some st' ∧ shown st'
         ∧ cook_steps st' = cook_steps st
         ∧ cook_index st'
           = Z.min (Z.of_nat (length (cook_steps st)) - 1)
               (cook_index st + Z.of_nat n).
Proof.
  revert st. induction n as [|n IH]; intros st Hst.
  - exists st. split_and!; [done..|]. destruct Hst as (_ & ? & _). lia.
  - destruct (press_shown Next st Hst) as (st1 & Hp & Hs1 & Hsteps & Hidx).
    destruct (IH st1 Hs1) as (st' & Hall & Hs' & Hsteps' & Hidx').
    exists st'. cbn [replicate press_all]. rewrite Hp. simpl.
    split_and!; [done..|congruence|]. rewrite Hidx', Hsteps, Hidx. lia.
Qed.

Lemma press_prev_times n st :
  shown st →
  ∃ st', press_all (replicate n Prev) st = Some st' ∧ shown st'
         ∧ cook_steps st' = cook_steps st
         ∧ cook_index st' = Z.max 0 (cook_index st - Z.of_nat n).
Proof.
  revert st. induction n as [|n IH]; intros st Hst.
  - exists st. split_and!; [done..|]. destruct Hst as (_ & ? & _). lia.
  - destruct (press_shown Prev st Hst) as (st1 & Hp & Hs1 & Hsteps & Hidx).
    destruct (IH st1 Hs1) as (st' & Hall & Hs' & Hsteps' & Hidx').
    exists st'. cbn [replicate press_all]. rewrite Hp. simpl.
    split_and!; [done..|congruence|]. rewrite Hidx', Hidx. lia.
Qed.

Lemma press_all_app bs1 bs2 st :
  press_all (bs1 ++ bs2) st = st' ← press_all bs1 st; press_all bs2 st'.
Proof.
  revert st. induction bs1 as [|b bs1 IH]; intros st; [done|].
  simpl. destruct (press b st) as [st1|]; [|done]. simpl. apply IH.
Qed.

(** X21: from the first step, [n] presses of Next followed by [m]
    presses of Prev show step [max 0 (min n (steps - 1) - m)]: the
    index stops at the last step and at the first. *)
Theorem cooking_mode_next_then_prev :
  ∀ recipe st0 (n m : nat),
    ∃ st1 st,
      enter_cooking_mode recipe st0 = Some st1
      ∧ press_all (replicate n Next ++ replicate m Prev) st1 = Some st
      ∧ (cook_steps st1 ≠ [] →
         cook_index st
         = Z.max 0
             (Z.min (Z.of_nat n) (Z.of_nat (length (cook_steps st1)) - 1)
              - Z.of_nat m))%Z.
Proof.
  intros recipe st0 n m.
  destruct (enter_cooking_mode_cases recipe st0)
    as (st1 & Hen & _ & Hidx & [Hnil|Hshown]).
  - exists st1, st1. by rewrite press_all_no_steps.
  - destruct (press_next_times n st1 Hshown)
      as (st2 & Hp2 & Hs2 & Hsteps2 & Hidx2).
    destruct (press_prev_times m st2 Hs2) as (st & Hp & _ & _ & Hidx3).
    exists st1, st. rewrite press_all_app, Hp2. simpl.
    split_and!; [done..|]. intros _. rewrite Hidx3, Hidx2, Hidx. lia.
Qed.
